(** * VoidLens: probing, notification state machine and rotating history

  A shallow embedding of the stateful core of VoidLens
  ([handlers/ping.ts], [handlers/history.ts], [types/monitor.ts]) and the
  properties of its notification state machine, retention cap, uptime
  statistics and chunked history store.

  Conventions of the embedding.
  - JavaScript numbers that hold integers (timestamps, milliseconds,
    HTTP status codes) are [Z]; ratios ([(upCount / n) * 100]) are exact
    rationals [Qc], which idealises IEEE doubles.
  - A plain object used as a dictionary ([Record<string, T> = {}]) is the
    [gmap string T] of its own properties together with its prototype: a
    key the object does not own is looked up in the prototype
    ([JS.Value]), so that [constructor] or [__proto__] are not
    [undefined], and an assignment to [__proto__] sets the prototype or is
    ignored.
  - [Date.now()] and the outcome of network or process I/O are explicit
    arguments, and so is the listing [readdir] returns.
  - A directory of JSON files is a finite map from file names to parsed
    content, on a POSIX file system with case-sensitive names; the files
    of the ping store hold arrays of results; reading a listed file and
    writing an entry of an existing directory succeed. *)

From Stdlib Require Import ZArith Ascii String.
From stdpp Require Import sorting numbers gmap strings fin_maps pretty list.

Local Open Scope Z_scope.

(** ** JavaScript helpers *)

Module JS.

(** [arr.slice(start)] for an integer [start]: a negative [start] counts
    from the end, and both ends are clamped to the array. *)
Definition slice {A} (start : Z) (arr : list A) : list A :=
  let len := Z.of_nat (length arr) in
  let k := if start <? 0 then Z.max (len + start) 0 else Z.min start len in
  drop (Z.to_nat k) arr.

(** [arr.push(x)] *)
Definition push {A} (arr : list A) (x : A) : list A := arr ++ [x].

(** [s.includes(sub)] *)
Definition includes (s sub : string) : bool :=
  match String.index 0 sub s with Some _ => true | None => false end.

(** [x || d] for a number that may be [undefined]: [0] is falsy too. *)
Definition num_or (x : option Z) (d : Z) : Z :=
  match x with
  | Some v => if v =? 0 then d else v
  | None => d
  end.

(** [!s] for a string that may be [undefined]: the empty string is falsy. *)
Definition str_falsy (s : option string) : bool :=
  match s with
  | None => true
  | Some EmptyString => true
  | Some _ => false
  end.

(** A thrown [Error], of which only [message] is observed. *)
Record Error := { message : string }.

(** A computation that returns or throws, with the sequencing of
    statements as its bind. *)
Inductive Exc (A : Type) : Type :=
| Returns (a : A)
| Throws (e : Error).
Arguments Returns {A} a.
Arguments Throws {A} e.

Definition Exc_ret : MRet Exc := λ A a, Returns a.
Definition Exc_bind : MBind Exc := λ A B k m,
  match m with
  | Returns a => k a
  | Throws e => Throws e
  end.
#[global] Existing Instance Exc_ret.
#[global] Existing Instance Exc_bind.

(** [try { body } catch (err) { handler }] *)
Definition try_catch {A} (body : Exc A) (handler : Error → Exc A) : Exc A :=
  match body with
  | Returns a => Returns a
  | Throws e => handler e
  end.

(** [s.endsWith(suffix)] *)
Fixpoint endsWith (s suffix : string) : bool :=
  String.eqb s suffix ||
  match s with
  | EmptyString => false
  | String _ s' => endsWith s' suffix
  end.

(** What follows [prefix] in [s], when [s.startsWith(prefix)]. *)
Fixpoint afterPrefix (prefix s : string) : option string :=
  match prefix, s with
  | EmptyString, _ => Some s
  | String a prefix', String b s' =>
      if Ascii.eqb a b then afterPrefix prefix' s' else None
  | String _ _, EmptyString => None
  end.

(** [s.replace(pattern, '')] for a string [pattern]: the first occurrence
    is removed, the others stay. *)
Fixpoint removeFirst (pattern s : string) : string :=
  match afterPrefix pattern s with
  | Some rest => rest
  | None =>
      match s with
      | EmptyString => EmptyString
      | String c s' => String c (removeFirst pattern s')
      end
  end.

(** [s.split('/')] *)
Fixpoint splitSlash (s : string) : list string :=
  match s with
  | EmptyString => [EmptyString]
  | String c s' =>
      if Ascii.eqb c "/" then EmptyString :: splitSlash s'
      else
        match splitSlash s' with
        | segment :: segments => String c segment :: segments
        | [] => [String c EmptyString]
        end
  end.

(** [path.join(dir, name)] on POSIX, where [dir] is a normalised absolute
    path given by its segments: the segments of [name] are applied one by
    one, [.] and empty segments are dropped and [..] steps up (the root is
    its own parent). *)
Definition pathJoin (dir : list string) (name : string) : list string :=
  foldl (λ path segment,
           if String.eqb segment "" || String.eqb segment "." then path
           else if String.eqb segment ".." then take (length path - 1) path
           else path ++ [segment])
        dir (splitSlash name).

(** The entry of directory [dir] that [path] names, when it names one. *)
Definition entryOf (dir path : list string) : option string :=
  match drop (length dir) path with
  | [entry] => if bool_decide (take (length dir) path = dir) then Some entry else None
  | _ => None
  end.

(** A string with a NUL character is refused as a path by [fs]. *)
Definition hasNul (s : string) : bool :=
  bool_decide (Ascii.zero ∈ list_ascii_of_string s).

(** *** Plain objects as dictionaries *)

(** What [obj[key]] can be for a dictionary whose own values are of type
    [A]: [undefined]; a value the program stored; and, found in the
    prototype chain, a number, a built-in function (of which only
    [length], its arity, is observed) or an object that is neither array
    nor function. *)
Inductive Value (A : Type) : Type :=
| Undefined
| Stored (a : A)
| Num (n : Z)
| Builtin (arity : Z)
| Obj.
Arguments Undefined {A}.
Arguments Stored {A} a.
Arguments Num {A} n.
Arguments Builtin {A} arity.
Arguments Obj {A}.

(** The string-keyed properties of [Object.prototype] that are functions,
    with their [length]; [__proto__] is an accessor and treated apart. *)
Definition objectPrototype : gmap string Z :=
  list_to_map
    [("constructor", 1); ("hasOwnProperty", 1); ("isPrototypeOf", 1);
     ("propertyIsEnumerable", 1); ("toLocaleString", 0); ("toString", 0);
     ("valueOf", 0); ("__defineGetter__", 2); ("__defineSetter__", 2);
     ("__lookupGetter__", 1); ("__lookupSetter__", 1)].

(** The string-keyed properties of [Array.prototype] (ECMAScript 2023),
    with their [length]. *)
Definition arrayPrototype : gmap string Z :=
  list_to_map
    [("constructor", 1); ("at", 1); ("concat", 1); ("copyWithin", 2);
     ("entries", 0); ("every", 1); ("fill", 1); ("filter", 1); ("find", 1);
     ("findIndex", 1); ("findLast", 1); ("findLastIndex", 1); ("flat", 0);
     ("flatMap", 1); ("forEach", 1); ("includes", 1); ("indexOf", 1);
     ("join", 1); ("keys", 0); ("lastIndexOf", 1); ("map", 1); ("pop", 0);
     ("push", 1); ("reduce", 1); ("reduceRight", 1); ("reverse", 0);
     ("shift", 0); ("slice", 2); ("some", 1); ("sort", 1); ("splice", 2);
     ("toLocaleString", 0); ("toReversed", 0); ("toSorted", 1);
     ("toSpliced", 2); ("toString", 0); ("unshift", 1); ("values", 0);
     ("with", 2)].

(** [obj[key]] for a key that [obj] does not own, when the prototype of
    [obj] is [Object.prototype]. *)
Definition fromObjectPrototype {A} (key : string) : Value A :=
  if String.eqb key "__proto__" then Obj
  else
    match objectPrototype !! key with
    | Some arity => Builtin arity
    | None => Undefined
    end.

(** The same when the prototype of [obj] is the array [arr]: [__proto__]
    is that array; [length] and the indices are found on it; the rest in
    [Array.prototype] and then in [Object.prototype]. *)
Definition fromArray {A} (arr : list A) (key : string) : Value (list A) :=
  if String.eqb key "__proto__" then Stored arr
  else if String.eqb key "length" then Num (Z.of_nat (length arr))
  else if bool_decide (key ∈ (pretty <$> seq 0 (length arr))) then Obj
  else
    match arrayPrototype !! key with
    | Some arity => Builtin arity
    | None => fromObjectPrototype key
    end.

(** [!v] where the stored values are objects (arrays): only [undefined]
    and [0] are falsy. *)
Definition falsy {A} (v : Value A) : bool :=
  match v with
  | Undefined => true
  | Num n => n =? 0
  | _ => false
  end.

(** Truthiness where the stored values are booleans. *)
Definition truthy (v : Value bool) : bool :=
  match v with
  | Undefined => false
  | Stored b => b
  | Num n => negb (n =? 0)
  | _ => true
  end.

(** [v === false] *)
Definition isFalse (v : Value bool) : bool :=
  match v with
  | Stored false => true
  | _ => false
  end.

End JS.

(** ** handlers/ping.ts *)

Module Ping.

Inductive Method := GET | POST | HEAD | icmp.

Record PingTarget := {
  id : string;
  name : string;
  url : string;
  method : Method;
  timeout : option Z;
  headers : option (gmap string string);
  expectedStatus : option Z
}.

Record PingResult := {
  timestamp : Z;
  isUp : bool;
  responseTime : Z;
  statusCode : Z;
  serverInfo : string;
  error : string
}.

Inductive NotificationType := initial_up | initial_down | down | up | slow.

(** The argument of [sendDiscordNotification]. *)
Record Notification := {
  type : NotificationType;
  target : PingTarget;
  result : PingResult
}.

(** The fields of the class that the modelled methods read or write.
    [results] and [lastNotifiedStatus] are the own properties of the two
    dictionaries. The prototype of [lastNotifiedStatus] is always
    [Object.prototype]; that of [results] is [Object.prototype]
    ([resultsProto = None]) until an array is assigned to
    [results.__proto__]. [storagePath] is given by its segments, and
    [storage] are the files of that directory, by file name. *)
Record PingHandler := {
  targets : list PingTarget;
  results : gmap string (list PingResult);
  resultsProto : option (list PingResult);
  storagePath : list string;
  maxResultsPerTarget : Z;
  lastNotifiedStatus : gmap string bool;
  slowResponseThreshold : Z;
  discordWebhookUrl : option string;
  storage : gmap string (list PingResult)
}.

Definition set_results (f : gmap string (list PingResult) → gmap string (list PingResult))
    (h : PingHandler) : PingHandler :=
  {| targets := targets h; results := f (results h);
     resultsProto := resultsProto h; storagePath := storagePath h;
     maxResultsPerTarget := maxResultsPerTarget h;
     lastNotifiedStatus := lastNotifiedStatus h;
     slowResponseThreshold := slowResponseThreshold h;
     discordWebhookUrl := discordWebhookUrl h; storage := storage h |}.

Definition set_resultsProto (proto : option (list PingResult))
    (h : PingHandler) : PingHandler :=
  {| targets := targets h; results := results h;
     resultsProto := proto; storagePath := storagePath h;
     maxResultsPerTarget := maxResultsPerTarget h;
     lastNotifiedStatus := lastNotifiedStatus h;
     slowResponseThreshold := slowResponseThreshold h;
     discordWebhookUrl := discordWebhookUrl h; storage := storage h |}.

Definition set_lastNotifiedStatus (f : gmap string bool → gmap string bool)
    (h : PingHandler) : PingHandler :=
  {| targets := targets h; results := results h;
     resultsProto := resultsProto h; storagePath := storagePath h;
     maxResultsPerTarget := maxResultsPerTarget h;
     lastNotifiedStatus := f (lastNotifiedStatus h);
     slowResponseThreshold := slowResponseThreshold h;
     discordWebhookUrl := discordWebhookUrl h; storage := storage h |}.

Definition set_storage (f : gmap string (list PingResult) → gmap string (list PingResult))
    (h : PingHandler) : PingHandler :=
  {| targets := targets h; results := results h;
     resultsProto := resultsProto h; storagePath := storagePath h;
     maxResultsPerTarget := maxResultsPerTarget h;
     lastNotifiedStatus := lastNotifiedStatus h;
     slowResponseThreshold := slowResponseThreshold h;
     discordWebhookUrl := discordWebhookUrl h; storage := f (storage h) |}.

Definition set_targets (ts : list PingTarget) (h : PingHandler) : PingHandler :=
  {| targets := ts; results := results h;
     resultsProto := resultsProto h; storagePath := storagePath h;
     maxResultsPerTarget := maxResultsPerTarget h;
     lastNotifiedStatus := lastNotifiedStatus h;
     slowResponseThreshold := slowResponseThreshold h;
     discordWebhookUrl := discordWebhookUrl h; storage := storage h |}.

(** The handler as the constructor leaves it when the process runs in
    directory [cwd]: field initialisers, [storagePath] at its default
    [path.join(process.cwd(), 'cache', 'ping-results')], the webhook URL
    and the slow threshold from the environment; [files] are the files
    found under [storagePath]. *)
Definition newIn (cwd : list string) (webhook : option string) (threshold : Z)
    (files : gmap string (list PingResult)) : PingHandler :=
  {| targets := []; results := ∅; resultsProto := None;
     storagePath := cwd ++ ["cache"; "ping-results"];
     maxResultsPerTarget := 1000;
     lastNotifiedStatus := ∅; slowResponseThreshold := threshold;
     discordWebhookUrl := webhook; storage := files |}.

(** The same for a process that runs in the root directory. *)
Definition new (webhook : option string) (threshold : Z)
    (files : gmap string (list PingResult)) : PingHandler :=
  newIn [] webhook threshold files.

(** *** The two dictionaries *)

(** [this.results[key]] *)
Definition getResults (h : PingHandler) (key : string)
    : JS.Value (list PingResult) :=
  match results h !! key with
  | Some arr => JS.Stored arr
  | None =>
      match resultsProto h with
      | None => JS.fromObjectPrototype key
      | Some arr => JS.fromArray arr key
      end
  end.

(** [this.results[key] = arr]: unless the object owns a property of that
    name, an assignment to [__proto__] replaces the prototype. Pushing to
    the array found at [key] changes that same array, which the model
    writes back with this assignment. *)
Definition assignResults (h : PingHandler) (key : string) (arr : list PingResult)
    : PingHandler :=
  match results h !! key with
  | None =>
      if String.eqb key "__proto__" then set_resultsProto (Some arr) h
      else set_results <[key := arr]> h
  | Some _ => set_results <[key := arr]> h
  end.

(** [this.lastNotifiedStatus[key]] *)
Definition getNotified (h : PingHandler) (key : string) : JS.Value bool :=
  match lastNotifiedStatus h !! key with
  | Some b => JS.Stored b
  | None => JS.fromObjectPrototype key
  end.

(** [this.lastNotifiedStatus[key] = b]: unless the object owns a property
    of that name, an assignment of a boolean to [__proto__] is ignored. *)
Definition assignNotified (h : PingHandler) (key : string) (b : bool)
    : PingHandler :=
  match lastNotifiedStatus h !! key with
  | None =>
      if String.eqb key "__proto__" then h
      else set_lastNotifiedStatus <[key := b]> h
  | Some _ => set_lastNotifiedStatus <[key := b]> h
  end.

(** *** Notification state machine *)

(** [checkForNotifications]: the new handler and the notifications handed
    to [sendDiscordNotification], in order. *)
Definition checkForNotifications (h : PingHandler) (target : PingTarget)
    (result : PingResult) : PingHandler * list Notification :=
  if JS.str_falsy (discordWebhookUrl h) then (h, [])
  else
    let send ty := {| type := ty; target := target; result := result |} in
    match getNotified h (id target) with
    | JS.Undefined =>
        (assignNotified h (id target) (isUp result),
         [send (if isUp result then initial_up else initial_down)])
    | previousStatus =>
        if JS.truthy previousStatus && negb (isUp result) then
          (assignNotified h (id target) false, [send down])
        else if JS.isFalse previousStatus && isUp result then
          (assignNotified h (id target) true, [send up])
        else if isUp result && (slowResponseThreshold h <? responseTime result) then
          (h, [send slow])
        else (h, [])
    end.

(** *** Probing *)

(** What the network does to one HTTP request, as [httpPing] observes it:
    the executor throws before a request exists ([new URL] on a malformed
    URL), or the first of the ['end'], ['error'] and ['timeout'] events
    settles the promise. [elapsed] is [Date.now() - startTime]. *)
Inductive HttpOutcome :=
| HttpThrows (e : JS.Error)
| HttpEnd (resStatusCode : option Z) (serverHeader : option string) (elapsed : Z)
| HttpError (e : JS.Error) (elapsed : Z)
| HttpTimeout.

(** What [execAsync] does with the [ping] command: it resolves with the
    standard output, or rejects (non-zero exit, command missing). *)
Inductive ExecOutcome :=
| ExecResolves (stdout : string) (elapsed : Z)
| ExecRejects (e : JS.Error).

(** The environment of one call of [pingTarget]; [clock] is the
    [Date.now()] of the returned result. *)
Record ProbeEnv := {
  httpOutcome : HttpOutcome;
  execOutcome : ExecOutcome;
  clock : Z
}.

(** [icmpPing]: [(isUp, responseTime)]; its [catch] swallows every error. *)
Definition icmpPing (o : ExecOutcome) : JS.Exc (bool * Z) :=
  match o with
  | ExecResolves stdout elapsed =>
      mret (JS.includes stdout "TTL=" || JS.includes stdout "ttl=" ||
            JS.includes stdout "time=" || JS.includes stdout "time<",
            elapsed)
  | ExecRejects _ => mret (false, 0)
  end.

(** [httpPing]: [(isUp, responseTime, statusCode, serverInfo)]. The
    promise rejects only when the executor itself throws. *)
Definition httpPing (target : PingTarget) (o : HttpOutcome)
    : JS.Exc (bool * Z * Z * string) :=
  let options_timeout := JS.num_or (timeout target) 5000 in
  match o with
  | HttpThrows e => JS.Throws e
  | HttpEnd resStatusCode serverHeader elapsed =>
      mret (match resStatusCode with
            | Some c => c <? 400
            | None => false
            end,
            elapsed,
            JS.num_or resStatusCode 0,
            match serverHeader with
            | Some EmptyString | None => EmptyString
            | Some s => s
            end)
  | HttpError _ elapsed => mret (false, elapsed, 0, EmptyString)
  | HttpTimeout => mret (false, options_timeout, 0, EmptyString)
  end.

(** [pingTarget]: the locals start as a down result without message; the
    [try] block overwrites them from the probe that ran, the [catch] block
    records the message of what was thrown; then the result object. *)
Definition pingTarget (target : PingTarget) (env : ProbeEnv) : JS.Exc PingResult :=
  '(isUp, responseTime, statusCode, serverInfo, error) ←
    JS.try_catch
      (match method target with
       | icmp =>
           '(isUp, responseTime) ← icmpPing (execOutcome env);
           mret (isUp, responseTime, 0, EmptyString, EmptyString)
       | _ =>
           '(isUp, responseTime, statusCode, serverInfo) ←
             httpPing target (httpOutcome env);
           mret (isUp, responseTime, statusCode, serverInfo, EmptyString)
       end)
      (λ err, mret (false, 0, 0, EmptyString, JS.message err));
  mret {| timestamp := clock env; isUp := isUp; responseTime := responseTime;
          statusCode := statusCode; serverInfo := serverInfo; error := error |}.

(** *** Results: retention, persistence, queries *)

(** What is thrown when a method is called on a value that has none. *)
Definition notAFunction (what : string) : JS.Error :=
  {| JS.message := String.append what " is not a function" |}.

(** [addResult]: a missing (falsy) entry becomes an empty array; [push]
    throws a [TypeError] when the entry is not an array, which is the
    case of an entry inherited from the prototype. *)
Definition addResult (h : PingHandler) (targetId : string) (result : PingResult)
    : JS.Exc PingHandler :=
  let h :=
    if JS.falsy (getResults h targetId) then assignResults h targetId [] else h in
  match getResults h targetId with
  | JS.Stored arr =>
      let pushed := JS.push arr result in
      let h := assignResults h targetId pushed in
      mret (if maxResultsPerTarget h <? Z.of_nat (length pushed)
            then assignResults h targetId (JS.slice (- maxResultsPerTarget h) pushed)
            else h)
  | _ => JS.Throws (notAFunction "this.results[targetId].push")
  end.

(** The file name of a target's series. *)
Definition fileOf (targetId : string) : string := String.append targetId ".json".

(** [saveResults] writes the target's array to
    [path.join(storagePath, targetId + '.json')]. The file is an entry of
    the storage directory unless the id leads elsewhere; a write
    elsewhere, whether it fails or not, leaves the entries of the
    directory as they are. [writeFile] throws for a path with a NUL
    character and for [undefined], which [JSON.stringify] gives for
    [undefined] and for a function; the [catch] swallows it. The one
    call of [saveResults] follows an [addResult] that returned, which
    leaves an array at [targetId]; a number or an object that is no
    array is never there when it is called, and the files of this model,
    which hold arrays, do not represent the JSON text that would be
    written for them. *)
Definition saveResults (h : PingHandler) (targetId : string) : PingHandler :=
  match getResults h targetId with
  | JS.Stored arr =>
      if JS.hasNul targetId then h
      else
        match JS.entryOf (storagePath h)
                (JS.pathJoin (storagePath h) (fileOf targetId)) with
        | Some file => set_storage <[file := arr]> h
        | None => h
        end
  | _ => h
  end.

(** [loadStoredResults], given the listing [files] of [readdir], in its
    order: every name that ends in [.json] is read, and its content
    becomes the results of the target named by the file name without its
    first [.json]; the notified state of that target becomes the [isUp]
    of the last result, if there is one. A file that cannot be read
    throws, and the [catch] around the loop ends the loading. *)
Fixpoint loadStoredResults (h : PingHandler) (files : list string) : PingHandler :=
  match files with
  | [] => h
  | file :: files =>
      if JS.endsWith file ".json" then
        let targetId := JS.removeFirst ".json" file in
        match storage h !! file with
        | Some data =>
            let h := assignResults h targetId data in
            let h :=
              match getResults h targetId with
              | JS.Stored arr =>
                  match last arr with
                  | Some lastResult => assignNotified h targetId (isUp lastResult)
                  | None => h
                  end
              | _ => h
              end in
            loadStoredResults h files
        | None => h
        end
      else loadStoredResults h files
  end.

(** [loadConfig]: the targets of [ping.json]; a file that is missing,
    malformed or without targets gives none. *)
Definition loadConfig (h : PingHandler) (config : option (list PingTarget))
    : PingHandler :=
  set_targets (default [] config) h.

(** [initialize]; [files] is the listing of the storage directory. *)
Definition initialize (h : PingHandler) (config : option (list PingTarget))
    (files : list string) : PingHandler :=
  loadStoredResults (loadConfig h config) files.

(** [getResultsForTarget]: [this.results[targetId] || []], which is not
    an array when the entry is inherited. *)
Definition getResultsForTarget (h : PingHandler) (targetId : string)
    : JS.Value (list PingResult) :=
  let targetResults := getResults h targetId in
  if JS.falsy targetResults then JS.Stored [] else targetResults.

(** [getLatestResultForTarget]: [None] stands for [null] and for the
    [undefined] that indexing a value that is no array gives. *)
Definition getLatestResultForTarget (h : PingHandler) (targetId : string)
    : option PingResult :=
  match getResults h targetId with
  | JS.Stored targetResults => last targetResults
  | _ => None
  end.

Definition ms_per_day : Z := 24 * 60 * 60 * 1000.

(** [calculateUptimePercentage] at time [now]. The guard
    [!targetResults || targetResults.length === 0] lets through every
    truthy value whose [length] is not 0, and [filter] throws a
    [TypeError] on those that are no arrays. *)
Definition calculateUptimePercentage (h : PingHandler) (targetId : string)
    (days : Z) (now : Z) : JS.Exc Qcanon.Qc :=
  let noFilter := JS.Throws (notAFunction "targetResults.filter") in
  match getResults h targetId with
  | JS.Undefined => mret (Qc_of_Z 0)
  | JS.Num n => if n =? 0 then mret (Qc_of_Z 0) else noFilter
  | JS.Builtin arity => if arity =? 0 then mret (Qc_of_Z 0) else noFilter
  | JS.Obj => noFilter
  | JS.Stored [] => mret (Qc_of_Z 0)
  | JS.Stored targetResults =>
      let cutoffTime := now - days * ms_per_day in
      let recentResults :=
        filter (λ r, cutoffTime ≤ timestamp r) targetResults in
      if (length recentResults =? 0)%nat then mret (Qc_of_Z 0)
      else
        let upCount := length (filter (λ r, isUp r = true) recentResults) in
        mret (Qcanon.Qcmult
                (Qcanon.Qcdiv (Qc_of_Z (Z.of_nat upCount))
                              (Qc_of_Z (Z.of_nat (length recentResults))))
                (Qc_of_Z 100))
  end.

(** *** The probing loop *)

(** The body of the loop of [pingAllTargets] once the probe has returned;
    what [addResult] throws leaves the loop. *)
Definition processResult (h : PingHandler) (target : PingTarget)
    (result : PingResult) : JS.Exc (PingHandler * list Notification) :=
  h ← addResult h (id target) result;
  let h := saveResults h (id target) in
  mret (checkForNotifications h target result).

(** Results handed to the loop body one after the other, over any number
    of ticks; the notifications accumulate. A result whose processing
    throws ends its tick: nothing was stored or sent for it, and the
    results that follow belong to later ticks. *)
Fixpoint processAll (h : PingHandler) (steps : list (PingTarget * PingResult))
    : PingHandler * list Notification :=
  match steps with
  | [] => (h, [])
  | (target, result) :: rest =>
      match processResult h target result with
      | JS.Returns (h1, sent1) =>
          let '(h2, sent2) := processAll h1 rest in
          (h2, sent1 ++ sent2)
      | JS.Throws _ => processAll h rest
      end
  end.

(** [pingAllTargets], one tick: every configured target in turn, each
    probe in its own environment. What a probe or [addResult] throws
    rejects the promise and the remaining targets are not probed. *)
Fixpoint pingTargets (h : PingHandler) (ts : list PingTarget)
    (world : PingTarget → ProbeEnv) : JS.Exc (PingHandler * list Notification) :=
  match ts with
  | [] => mret (h, [])
  | target :: rest =>
      result ← pingTarget target (world target);
      '(h1, sent1) ← processResult h target result;
      '(h2, sent2) ← pingTargets h1 rest world;
      mret (h2, sent1 ++ sent2)
  end.

Definition pingAllTargets (h : PingHandler) (world : PingTarget → ProbeEnv)
    : JS.Exc (PingHandler * list Notification) :=
  pingTargets h (targets h) world.

End Ping.

(** ** handlers/history.ts *)

Module History.

Record SystemStatus := {
  timestamp : Z;
  uptime : Z;
  loadAverage : list Qcanon.Qc;
  freeMemory : Z;
  totalMemory : Z;
  cpuUsage : Qcanon.Qc;
  networkIn : Qcanon.Qc;
  networkOut : Qcanon.Qc
}.

(** The fields of the class, and [cache]: the files of [cacheDir], where
    key [n] is the file [run-<n>.json]. *)
Record HistoryHandler := {
  cache : gmap nat (list SystemStatus);
  currentRunNumber : nat;
  entriesInCurrentFile : nat;
  maxEntriesPerFile : nat;
  statusHistory : list SystemStatus
}.

(** The handler as the constructor leaves it, over the files found on disk. *)
Definition new (files : gmap nat (list SystemStatus)) : HistoryHandler :=
  {| cache := files; currentRunNumber := 1; entriesInCurrentFile := 0;
     maxEntriesPerFile := 700; statusHistory := [] |}.

(** [findLatestRunNumber]: the highest run number names the open file. *)
Definition findLatestRunNumber (h : HistoryHandler) : HistoryHandler :=
  let runFiles := elements (dom (cache h)) in
  if (0 <? length runFiles)%nat then
    let run := max_list runFiles in
    match cache h !! run with
    | Some entries =>
        let full := (maxEntriesPerFile h <=? length entries)%nat in
        {| cache := cache h;
           currentRunNumber := if full then S run else run;
           entriesInCurrentFile := if full then 0%nat else length entries;
           maxEntriesPerFile := maxEntriesPerFile h;
           statusHistory := entries |}
    | None =>
        {| cache := cache h; currentRunNumber := 1; entriesInCurrentFile := 0;
           maxEntriesPerFile := maxEntriesPerFile h;
           statusHistory := statusHistory h |}
    end
  else h.

Definition initialize (h : HistoryHandler) : HistoryHandler :=
  findLatestRunNumber h.

(** [saveCache] rewrites the file of the current run number. *)
Definition saveCache (h : HistoryHandler) : HistoryHandler :=
  {| cache := <[currentRunNumber h := statusHistory h]> (cache h);
     currentRunNumber := currentRunNumber h;
     entriesInCurrentFile := entriesInCurrentFile h;
     maxEntriesPerFile := maxEntriesPerFile h;
     statusHistory := statusHistory h |}.

Definition addStatus (h : HistoryHandler) (status : SystemStatus) : HistoryHandler :=
  let h :=
    {| cache := cache h; currentRunNumber := currentRunNumber h;
       entriesInCurrentFile := S (entriesInCurrentFile h);
       maxEntriesPerFile := maxEntriesPerFile h;
       statusHistory := JS.push (statusHistory h) status |} in
  if (maxEntriesPerFile h <=? entriesInCurrentFile h)%nat then
    let h := saveCache h in
    {| cache := cache h; currentRunNumber := S (currentRunNumber h);
       entriesInCurrentFile := 1; maxEntriesPerFile := maxEntriesPerFile h;
       statusHistory := [status] |}
  else saveCache h.

Definition getLatestStatus (h : HistoryHandler) : option SystemStatus :=
  last (statusHistory h).

(** [loadAllHistory]: the run files in ascending run number, concatenated. *)
Definition loadAllHistory (h : HistoryHandler) : list SystemStatus :=
  let runFiles := merge_sort Nat.le (elements (dom (cache h))) in
  foldl (λ allHistory run, allHistory ++ default [] (cache h !! run)) [] runFiles.

Definition ms_per_day : Z := 24 * 60 * 60 * 1000.

(** [getHistory] without the ping data ([includePing] false). *)
Definition getHistory (h : HistoryHandler) (days count : Z) (now : Z)
    : list SystemStatus :=
  let cutoff := now - days * ms_per_day in
  let allHistory := loadAllHistory h in
  let allHistory := filter (λ status, cutoff ≤ timestamp status) allHistory in
  JS.slice (- count) allHistory.

(** Statuses appended one after the other. *)
Definition addStatuses (h : HistoryHandler) (statuses : list SystemStatus)
    : HistoryHandler :=
  foldl addStatus h statuses.

End History.

(** ** The specification's vocabulary *)

Module Spec.
Import Ping.

(** The transition table of the specification, over what the lookup of
    the notified state gives: the notifications each state enables, and
    the state each leads to. A state inherited from the prototype is
    neither [undefined] nor [false]; the state it leads to is stored,
    except under the key [__proto__], where the assignment is ignored. *)
Definition step (key : string) (s : JS.Value bool) (ty : NotificationType)
    : option (JS.Value bool) :=
  match s, ty with
  | JS.Undefined, initial_up => Some (JS.Stored true)
  | JS.Undefined, initial_down => Some (JS.Stored false)
  | JS.Undefined, _ => None
  | _, down =>
      if JS.truthy s then
        Some (match s with
              | JS.Stored _ => JS.Stored false
              | _ => if String.eqb key "__proto__" then s else JS.Stored false
              end)
      else None
  | _, up => if JS.isFalse s then Some (JS.Stored true) else None
  | _, slow => if JS.isFalse s then None else Some s
  | _, _ => None
  end.

(** The state a sequence of notifications leads to, when the table allows
    the sequence. *)
Fixpoint trace (key : string) (s : JS.Value bool) (tys : list NotificationType)
    : option (JS.Value bool) :=
  match tys with
  | [] => Some s
  | ty :: rest =>
      match step key s ty with
      | Some s' => trace key s' rest
      | None => None
      end
  end.

(** The notifications about one target, and their types. *)
Definition sentFor (tid : string) (sent : list Notification) : list Notification :=
  filter (λ n, id (target n) = tid) sent.

Definition typesFor (tid : string) (sent : list Notification)
    : list NotificationType :=
  type <$> sentFor tid sent.

(** The up/down decision the specification asks of an HTTP probe: an
    [expectedStatus], when declared, replaces the [< 400] rule. *)
Definition isUp_spec (t : PingTarget) (o : HttpOutcome) : bool :=
  match o with
  | HttpEnd (Some c) _ _ =>
      match expectedStatus t with
      | Some e => c =? e
      | None => c <? 400
      end
  | _ => false
  end.



(** A key that a plain object does not inherit from [Object.prototype]:
    neither the name of one of its methods nor [__proto__]. *)
Definition ordinaryKey (key : string) : bool :=
  match (JS.fromObjectPrototype key : JS.Value unit) with
  | JS.Undefined => true
  | _ => false
  end.

(** The entry of a target is an array or missing. *)
Definition hasSeries (h : PingHandler) (tid : string) : bool :=
  match getResults h tid with
  | JS.Undefined | JS.Stored _ => true
  | _ => false
  end.

(** The results a target has in memory, none when its entry is no array. *)
Definition seriesOf (h : PingHandler) (tid : string) : list PingResult :=
  match getResults h tid with
  | JS.Stored rs => rs
  | _ => []
  end.

(** A target id that works as a key and as a file name: an ordinary key
    without NUL, whose file [<id>.json] is an entry of the storage
    directory [dir] and is read back under the same id. *)
Definition plainId (dir : list string) (tid : string) : bool :=
  ordinaryKey tid && negb (JS.hasNul tid)
  && bool_decide (JS.entryOf dir (JS.pathJoin dir (fileOf tid)) = Some (fileOf tid))
  && JS.endsWith (fileOf tid) ".json"
  && String.eqb (JS.removeFirst ".json" (fileOf tid)) tid.

(** A file name that does not end in [.json], which the loading skips,
    or that is the [<id>.json] of such an id. *)
Definition plainFile (dir : list string) (file : string) : bool :=
  negb (JS.endsWith file ".json")
  || (plainId dir (JS.removeFirst ".json" file)
      && String.eqb (fileOf (JS.removeFirst ".json" file)) file).



(** The handler a restart would build from the stored series alone: a new
    handler over the same directory and environment, initialised with the
    listing of the directory. *)
Definition restart (h : PingHandler) (config : option (list PingTarget))
    (listing : list string) : PingHandler :=
  initialize
    {| targets := []; results := ∅; resultsProto := None;
       storagePath := storagePath h; maxResultsPerTarget := 1000;
       lastNotifiedStatus := ∅;
       slowResponseThreshold := slowResponseThreshold h;
       discordWebhookUrl := discordWebhookUrl h; storage := storage h |}
    config listing.

(** Results appended to the ping series, possibly of several targets; an
    append that throws ends the sequence. *)
Fixpoint appendAll (h : PingHandler) (steps : list (string * PingResult))
    : JS.Exc PingHandler :=
  match steps with
  | [] => mret h
  | (tid, r) :: rest => h ← addResult h tid r; appendAll h rest
  end.

(** The results of one target among the appended ones. *)
Definition resultsFor (tid : string) (steps : list (string * PingResult))
    : list PingResult :=
  snd <$> filter (λ step, step.1 = tid) steps.

(** The last [m] elements of a list. *)
Definition keep {A} (m : Z) (l : list A) : list A :=
  drop (length l - Z.to_nat m) l.

(** The history store while its first file is still open: what has been
    appended so far is in memory and, unless nothing was appended, in
    [run-1.json]. *)
Definition firstRun (statuses : list History.SystemStatus) : History.HistoryHandler :=
  {| History.cache := match statuses with [] => ∅ | _ => {[ 1%nat := statuses ]} end;
     History.currentRunNumber := 1;
     History.entriesInCurrentFile := length statuses;
     History.maxEntriesPerFile := 700;
     History.statusHistory := statuses |}.

(** The in-window results of a target at time [now]. *)
Definition window (h : PingHandler) (tid : string) (days now : Z)
    : list PingResult :=
  filter (λ r, now - days * ms_per_day ≤ timestamp r) (seriesOf h tid).

Definition countUp (rs : list PingResult) : nat :=
  length (filter (λ r, isUp r = true) rs).

(** [(up / all) × 100] *)
Definition percentage (up all : nat) : Qcanon.Qc :=
  Qcanon.Qcmult
    (Qcanon.Qcdiv (Qc_of_Z (Z.of_nat up)) (Qc_of_Z (Z.of_nat all)))
    (Qc_of_Z 100).

End Spec.

(** ** Concrete data for the examples *)

Module Examples.
Import Ping.

Definition example_target : PingTarget :=
  {| id := "google"; name := "Google"; url := "https://www.google.com";
     method := GET; timeout := Some 5000; headers := None;
     expectedStatus := None |}.

Definition webhook_url : string := "https://discord.example/api/webhooks/1".

Definition up_result (t rt : Z) : PingResult :=
  {| timestamp := t; isUp := true; responseTime := rt; statusCode := 200;
     serverInfo := "gws"; error := "" |}.

Definition down_result (t : Z) : PingResult :=
  {| timestamp := t; isUp := false; responseTime := 5000; statusCode := 0;
     serverInfo := ""; error := "" |}.

(** A target with a given id. *)
Definition target_named (tid : string) : PingTarget :=
  {| id := tid; name := tid; url := "https://example.org"; method := GET;
     timeout := None; headers := None; expectedStatus := None |}.

(** A target whose id names a method every object inherits, and one
    whose id is [__proto__]. *)
Definition constructor_target : PingTarget :=
  {| id := "constructor"; name := "Builder"; url := "https://builder.example";
     method := GET; timeout := None; headers := None;
     expectedStatus := None |}.

Definition proto_target : PingTarget :=
  {| id := "__proto__"; name := "Proto"; url := "https://proto.example";
     method := GET; timeout := None; headers := None;
     expectedStatus := None |}.

(** [n] up results of one target, one per minute. *)
Definition many_results (tid : string) (n : nat) : list (string * PingResult) :=
  (λ i, (tid, up_result (60000 * i) 50)) <$> seqZ 1 (Z.of_nat n).

Definition sample (t : Z) : History.SystemStatus :=
  {| History.timestamp := t; History.uptime := t / 1000;
     History.loadAverage := []; History.freeMemory := 4096;
     History.totalMemory := 8192; History.cpuUsage := Qc_of_Z 0;
     History.networkIn := Qc_of_Z 0; History.networkOut := Qc_of_Z 0 |}.

(** [n] samples, one per second from [1000] on. *)
Definition samples (n : nat) : list History.SystemStatus :=
  (λ i, sample (1000 * i)) <$> seqZ 1 (Z.of_nat n).

End Examples.

(** ** handlers/ping.ts: the remaining queries and the ping command *)

Module PingQueries.
Import Ping.

(** [getAverageResponseTime] at time [now]: the mean response time of
    the up results of the window, 0 when there is none. The guard and the
    [filter] are those of [calculateUptimePercentage], and so is the
    [TypeError] for an entry that is no array. *)
Definition getAverageResponseTime (h : PingHandler) (targetId : string)
    (days : Z) (now : Z) : JS.Exc Qcanon.Qc :=
  let noFilter := JS.Throws (notAFunction "targetResults.filter") in
  match getResults h targetId with
  | JS.Undefined => mret (Qc_of_Z 0)
  | JS.Num n => if n =? 0 then mret (Qc_of_Z 0) else noFilter
  | JS.Builtin arity => if arity =? 0 then mret (Qc_of_Z 0) else noFilter
  | JS.Obj => noFilter
  | JS.Stored [] => mret (Qc_of_Z 0)
  | JS.Stored targetResults =>
      let cutoffTime := now - days * ms_per_day in
      let recentResults :=
        filter (λ r, cutoffTime ≤ timestamp r ∧ isUp r = true) targetResults in
      if (length recentResults =? 0)%nat then mret (Qc_of_Z 0)
      else
        let totalResponseTime :=
          foldl (λ sum r, sum + responseTime r) 0 recentResults in
        mret (Qcanon.Qcdiv (Qc_of_Z totalResponseTime)
                           (Qc_of_Z (Z.of_nat (length recentResults))))
  end.

(** [getTargets] returns a copy of the configured targets. *)
Definition getTargets (h : PingHandler) : list PingTarget := targets h.

(** [s.replace(/^prefix/, '')] when the prefix is there. *)
Fixpoint stripPrefix (prefix s : string) : option string :=
  match prefix, s with
  | EmptyString, _ => Some s
  | String a prefix', String b s' =>
      if Ascii.eqb a b then stripPrefix prefix' s' else None
  | String _ _, EmptyString => None
  end.

(** [host.replace(/^https?:\/\//, '')] *)
Definition stripScheme (host : string) : string :=
  match stripPrefix "http://" host with
  | Some rest => rest
  | None =>
      match stripPrefix "https://" host with
      | Some rest => rest
      | None => host
      end
  end.

(** [s.split(c)[0]]: what comes before the first [c]. *)
Fixpoint beforeChar (c : Ascii.ascii) (s : string) : string :=
  match s with
  | EmptyString => EmptyString
  | String a s' => if Ascii.eqb a c then EmptyString else String a (beforeChar c s')
  end.

(** The host name [icmpPing] extracts from a target's URL. *)
Definition hostname (host : string) : string :=
  beforeChar "/"%char (stripScheme host).

(** The command line [icmpPing] executes. *)
Definition pingCommand (platform host : string) : string :=
  let pingOptions :=
    if String.eqb platform "win32" then "-n 1 -w 1000" else "-c 1 -W 1" in
  String.append "ping "
    (String.append pingOptions (String.append " " (hostname host))).

End PingQueries.

(** ** router.ts: the ping endpoints *)

Module Router.
Import Ping.

(** [GET /ping/history/:id]; [days] and [i] are the parsed query
    parameters, absent ones take the defaults 1 and 50. The handler
    throws when what [getPingResults] returns is no array. *)
Definition pingHistory (h : PingHandler) (targetId : string)
    (days i : option Z) (now : Z) : JS.Exc (list PingResult) :=
  let daysNum := default 1 days in
  let count := default 50 i in
  match getResultsForTarget h targetId with
  | JS.Stored results =>
      let cutoffTime := now - daysNum * ms_per_day in
      mret (JS.slice (- count) (filter (λ r, cutoffTime ≤ timestamp r) results))
  | _ => JS.Throws (notAFunction "results.filter")
  end.

(** [GET /ping/target/:id]: the latest result, or the 404 answer. *)
Definition pingTargetLatest (h : PingHandler) (targetId : string)
    : string + PingResult :=
  match getLatestResultForTarget h targetId with
  | Some result => inr result
  | None => inl "Target not found"
  end.

End Router.

(** ** handlers/network.ts: transfer rates *)

Module Network.

(** [Math.max(0, x)] *)
Definition max0 (x : Qcanon.Qc) : Qcanon.Qc :=
  if decide (Qcanon.Qcle x (Qc_of_Z 0)) then Qc_of_Z 0 else x.

(** [in] is a keyword here, hence [in_]. *)
Record NetworkStats := {
  in_ : Qcanon.Qc;
  out : Qcanon.Qc
}.

Record NetworkHandler := {
  networkStats : NetworkStats;
  lastNetworkBytes : NetworkStats;
  lastNetworkCheck : Z
}.

Definition new : NetworkHandler :=
  {| networkStats := {| in_ := Qc_of_Z 0; out := Qc_of_Z 0 |};
     lastNetworkBytes := {| in_ := Qc_of_Z 0; out := Qc_of_Z 0 |};
     lastNetworkCheck := 0 |}.

(** [calculateNetworkRates] at time [now]. *)
Definition calculateNetworkRates (h : NetworkHandler) (totalIn totalOut : Z)
    (now : Z) : NetworkHandler :=
  let timeDiff :=
    Qcanon.Qcdiv (Qc_of_Z (now - lastNetworkCheck h)) (Qc_of_Z 1000) in
  let stats :=
    if (0 <? lastNetworkCheck h)
       && bool_decide (Qcanon.Qclt (Qc_of_Z 0) timeDiff)
    then
      {| in_ := max0 (Qcanon.Qcdiv
                        (Qcanon.Qcminus (Qc_of_Z totalIn) (in_ (lastNetworkBytes h)))
                        timeDiff);
         out := max0 (Qcanon.Qcdiv
                        (Qcanon.Qcminus (Qc_of_Z totalOut) (out (lastNetworkBytes h)))
                        timeDiff) |}
    else networkStats h in
  {| networkStats := stats;
     lastNetworkBytes := {| in_ := Qc_of_Z totalIn; out := Qc_of_Z totalOut |};
     lastNetworkCheck := now |}.

(** [updateNetworkStats]: [totals] are the byte counters read from the
    operating system; there are none on an unsupported platform or when
    the command fails, and then nothing changes. *)
Definition updateNetworkStats (h : NetworkHandler) (totals : option (Z * Z))
    (now : Z) : NetworkHandler * NetworkStats :=
  let h :=
    match totals with
    | Some (totalIn, totalOut) => calculateNetworkRates h totalIn totalOut now
    | None => h
    end in
  (h, networkStats h).

(** Successive readings, each with its own clock. *)
Definition updates (h : NetworkHandler) (readings : list (option (Z * Z) * Z))
    : NetworkHandler :=
  foldl (λ h reading, (updateNetworkStats h reading.1 reading.2).1) h readings.

End Network.

(** ** Vocabulary for the remaining properties *)

Module SpecMore.

(** The series a sequence of run files stands for when every file after
    the first begins with the record its predecessor ends with. *)
Definition unoverlap {A} (runs : list (list A)) : list A :=
  match runs with
  | [] => []
  | first :: rest => first ++ concat (tail <$> rest)
  end.

(** The three shapes of a history store that started empty and was given
    [statuses]: nothing appended yet; the current run written to disk; the
    current run just opened and not yet written. *)
Inductive shape (h : History.HistoryHandler)
    (statuses : list History.SystemStatus) : Prop :=
| shape_fresh :
    statuses = [] →
    History.cache h = ∅ →
    History.currentRunNumber h = 1%nat →
    History.statusHistory h = [] →
    shape h statuses
| shape_open sealed :
    History.cache h = map_seq 1 (sealed ++ [History.statusHistory h]) →
    History.currentRunNumber h = S (length sealed) →
    Forall (λ run, length run = 700%nat) sealed →
    (1 ≤ length (History.statusHistory h) < 700)%nat →
    (sealed = [] ∨ 2 ≤ length (History.statusHistory h))%nat →
    unoverlap (sealed ++ [History.statusHistory h]) = statuses →
    shape h statuses
| shape_rolled sealed status :
    History.cache h = map_seq 1 sealed →
    History.currentRunNumber h = S (length sealed) →
    Forall (λ run, length run = 700%nat) sealed →
    sealed ≠ [] →
    History.statusHistory h = [status] →
    unoverlap sealed = statuses →
    shape h statuses.

(** The up results of a target inside the window at time [now]. *)
Definition upWindow (h : Ping.PingHandler) (tid : string) (days now : Z)
    : list Ping.PingResult :=
  filter (λ r, now - days * Ping.ms_per_day ≤ Ping.timestamp r
               ∧ Ping.isUp r = true)
         (Spec.seriesOf h tid).

(** How often the availability changes along a sequence of results,
    starting from the availability [b]. *)
Fixpoint flips (b : bool) (rs : list Ping.PingResult) : nat :=
  match rs with
  | [] => 0
  | r :: rs =>
      ((if Bool.eqb (Ping.isUp r) b then 0 else 1) + flips (Ping.isUp r) rs)%nat
  end.

(** The notifications that announce a change of availability: [up] and
    [down]. *)
Definition isChange (ty : Ping.NotificationType) : bool :=
  match ty with
  | Ping.up | Ping.down => true
  | _ => false
  end.

Definition changes (sent : list Ping.Notification) : list Ping.Notification :=
  filter (λ n, isChange (Ping.type n) = true) sent.

(** What the type of a notification says about the result it carries. *)
Definition agrees (threshold : Z) (n : Ping.Notification) : Prop :=
  match Ping.type n with
  | Ping.down | Ping.initial_down => Ping.isUp (Ping.result n) = false
  | Ping.up | Ping.initial_up => Ping.isUp (Ping.result n) = true
  | Ping.slow =>
      Ping.isUp (Ping.result n) = true
      ∧ threshold < Ping.responseTime (Ping.result n)
  end.

(** Rates that are not negative. *)
Definition ratesNonneg (s : Network.NetworkStats) : Prop :=
  Qcanon.Qcle (Qc_of_Z 0) (Network.in_ s) ∧
  Qcanon.Qcle (Qc_of_Z 0) (Network.out s).

(** What no method of the ping handler changes after construction, and
    what only [checkForNotifications] and the loading change. *)
Definition settings (h : Ping.PingHandler) : list string * Z * Z * option string :=
  (Ping.storagePath h, Ping.maxResultsPerTarget h,
   Ping.slowResponseThreshold h, Ping.discordWebhookUrl h).

(** [addResult] cuts the array it has pushed to when it is longer than
    [maxResultsPerTarget]. *)
Definition trim (h : Ping.PingHandler) (pushed : list Ping.PingResult)
    : list Ping.PingResult :=
  if Ping.maxResultsPerTarget h <? Z.of_nat (length pushed)
  then JS.slice (- Ping.maxResultsPerTarget h) pushed
  else pushed.

(** Every target with a notified state owns an array of results. *)
Definition notifiedHaveResults (h : Ping.PingHandler) : Prop :=
  ∀ tid, is_Some (Ping.lastNotifiedStatus h !! tid) →
         is_Some (Ping.results h !! tid).

(** A string made of characters other than [/], [.] and NUL. *)
Definition simpleName (s : string) : Prop :=
  Forall (λ c, c ≠ "/"%char ∧ c ≠ "."%char ∧ c ≠ Ascii.zero)
         (list_ascii_of_string s).

(** A string without [/]. *)
Definition noSlash (s : string) : Prop :=
  "/"%char ∉ list_ascii_of_string s.

End SpecMore.

(** ** Properties of the ping handler *)

Module PingProps.
Import Ping Spec SpecMore Examples.

(** *** The two dictionaries *)

Lemma ordinaryKey_spec {A} key :
  ordinaryKey key = true →
  @JS.fromObjectPrototype A key = JS.Undefined ∧ String.eqb key "__proto__" = false.
Proof.
  unfold ordinaryKey, JS.fromObjectPrototype.
  destruct (String.eqb key "__proto__"); [done|].
  by destruct (JS.objectPrototype !! key).
Qed.

Lemma getResults_own h key arr :
  results h !! key = Some arr → getResults h key = JS.Stored arr.
Proof. unfold getResults. by intros ->. Qed.

Lemma getResults_ordinary h key :
  resultsProto h = None → ordinaryKey key = true →
  getResults h key = match results h !! key with
                     | Some arr => JS.Stored arr
                     | None => JS.Undefined
                     end.
Proof.
  intros Hp [Hu _]%(ordinaryKey_spec (A:=list PingResult)).
  unfold getResults. rewrite Hp. by destruct (results h !! key).
Qed.

Lemma getNotified_own h key b :
  lastNotifiedStatus h !! key = Some b → getNotified h key = JS.Stored b.
Proof. unfold getNotified. by intros ->. Qed.

Lemma getNotified_ext h1 h2 key :
  lastNotifiedStatus h1 !! key = lastNotifiedStatus h2 !! key →
  getNotified h1 key = getNotified h2 key.
Proof. unfold getNotified. by intros ->. Qed.

Lemma getNotified_Undefined h key :
  getNotified h key = JS.Undefined → lastNotifiedStatus h !! key = None.
Proof. unfold getNotified. by destruct (lastNotifiedStatus h !! key). Qed.

(** Every way through the state machine: what the lookup gave, whether
    the result is up, whether it is slow. *)
Ltac check_cases h t r :=
  let n := fresh "n" in
  destruct (getNotified h (id t)) as [|[]|n| |];
  destruct (isUp r); simpl;
  try destruct (slowResponseThreshold h <? responseTime r);
  try destruct (n =? 0); simpl.

(** *** Frame lemmas: which fields each method leaves alone *)

Lemma assignResults_frame h key arr :
  let h' := assignResults h key arr in
  settings h' = settings h ∧ lastNotifiedStatus h' = lastNotifiedStatus h ∧
  storage h' = storage h ∧ targets h' = targets h.
Proof.
  unfold assignResults.
  by destruct (results h !! key), (String.eqb key "__proto__").
Qed.

Lemma assignNotified_frame h key b :
  let h' := assignNotified h key b in
  settings h' = settings h ∧ results h' = results h ∧
  resultsProto h' = resultsProto h ∧ storage h' = storage h ∧
  targets h' = targets h.
Proof.
  unfold assignNotified.
  by destruct (lastNotifiedStatus h !! key), (String.eqb key "__proto__").
Qed.

Lemma addResult_frame h tid r h' :
  addResult h tid r = JS.Returns h' →
  settings h' = settings h ∧ lastNotifiedStatus h' = lastNotifiedStatus h ∧
  storage h' = storage h ∧ targets h' = targets h.
Proof.
  unfold addResult.
  set (h1 := if JS.falsy (getResults h tid) then assignResults h tid [] else h).
  assert (H1 : settings h1 = settings h ∧
               lastNotifiedStatus h1 = lastNotifiedStatus h ∧
               storage h1 = storage h ∧ targets h1 = targets h).
  { subst h1. destruct (JS.falsy _); [apply assignResults_frame|done]. }
  destruct (getResults h1 tid) as [|arr| | |]; try done.
  cbn. intros [= <-].
  destruct (assignResults_frame h1 tid (JS.push arr r)) as (Hs & Hl & Hst & Ht).
  destruct (_ <? _).
  - destruct (assignResults_frame (assignResults h1 tid (JS.push arr r)) tid
                (JS.slice (- maxResultsPerTarget (assignResults h1 tid (JS.push arr r)))
                          (JS.push arr r))) as (Hs' & Hl' & Hst' & Ht').
    destruct H1 as (? & ? & ? & ?). repeat split; congruence.
  - destruct H1 as (? & ? & ? & ?). repeat split; congruence.
Qed.

Lemma saveResults_frame h tid :
  let h' := saveResults h tid in
  settings h' = settings h ∧ lastNotifiedStatus h' = lastNotifiedStatus h ∧
  results h' = results h ∧ resultsProto h' = resultsProto h ∧
  targets h' = targets h.
Proof.
  unfold saveResults.
  destruct (getResults h tid); try done.
  destruct (JS.hasNul tid); [done|]. by destruct (JS.entryOf _ _).
Qed.

Lemma checkForNotifications_frame h t r :
  let h' := (checkForNotifications h t r).1 in
  settings h' = settings h ∧ results h' = results h ∧
  resultsProto h' = resultsProto h ∧ storage h' = storage h ∧
  targets h' = targets h.
Proof.
  unfold checkForNotifications.
  destruct (JS.str_falsy _); [done|].
  check_cases h t r; first [done | apply assignNotified_frame].
Qed.

(** The loop body: when it returns, the state machine has run on a
    handler whose notified states and settings are those it started
    with; when it throws, nothing has happened. *)
Lemma processResult_check h t r h' sent :
  processResult h t r = JS.Returns (h', sent) →
  ∃ h0, checkForNotifications h0 t r = (h', sent) ∧
        lastNotifiedStatus h0 = lastNotifiedStatus h ∧
        settings h0 = settings h.
Proof.
  unfold processResult. destruct (addResult h (id t) r) as [h1|e] eqn:Hadd; [|done].
  cbn. intros [= Hcheck].
  exists (saveResults h1 (id t)). split; [done|].
  destruct (addResult_frame _ _ _ _ Hadd) as (Hs & Hl & _).
  destruct (saveResults_frame h1 (id t)) as (Hs' & Hl' & _).
  split; congruence.
Qed.

Lemma processResult_frame h t r h' sent :
  processResult h t r = JS.Returns (h', sent) → settings h' = settings h.
Proof.
  intros (h0 & Hcheck & _ & Hs)%processResult_check.
  destruct (checkForNotifications_frame h0 t r) as (Hs' & _).
  rewrite Hcheck in Hs'. simpl in Hs'. congruence.
Qed.

Lemma settings_webhook h h' :
  settings h' = settings h → discordWebhookUrl h' = discordWebhookUrl h.
Proof. by intros [=]. Qed.

Lemma settings_threshold h h' :
  settings h' = settings h → slowResponseThreshold h' = slowResponseThreshold h.
Proof. by intros [=]. Qed.


Lemma settings_path h h' :
  settings h' = settings h → storagePath h' = storagePath h.
Proof. by intros [=]. Qed.

(** *** C10: no webhook, no state machine *)

Lemma checkForNotifications_no_webhook h t r :
  JS.str_falsy (discordWebhookUrl h) = true →
  checkForNotifications h t r = (h, []).
Proof. unfold checkForNotifications. by intros ->. Qed.

(** C10. If no webhook URL is configured, then processing any sequence of
    probe results, of any targets, sends no notification and leaves the
    notification state of every target as it was; in particular a
    target's first check does not make the [initial-up] / [initial-down]
    transition. *)
Theorem no_webhook_no_transition h steps :
  JS.str_falsy (discordWebhookUrl h) = true →
  (processAll h steps).2 = [] ∧
  lastNotifiedStatus (processAll h steps).1 = lastNotifiedStatus h.
Proof.
  revert h. induction steps as [|[t r] steps IH]; intros h Hw; [done|].
  simpl.
  destruct (processResult h t r) as [[h1 sent1]|e] eqn:Hp; [|by apply IH].
  destruct (processResult_check _ _ _ _ _ Hp) as (h0 & Hcheck & Hl & Hs).
  apply settings_webhook in Hs.
  rewrite checkForNotifications_no_webhook in Hcheck by congruence.
  injection Hcheck as <- <-.
  destruct (IH h0 ltac:(congruence)) as [Hsent Hn].
  destruct (processAll h0 steps) as [h2 s2]; simpl in *.
  split; congruence.
Qed.

(** The unconfigured handler at work: a first check that is up and a failure
    after it, and nothing is sent. *)
Lemma no_webhook_no_transition_witness :
  let h := new None 1000 ∅ in
  let steps := [(example_target, up_result 1 50); (example_target, down_result 2)] in
  JS.str_falsy (discordWebhookUrl h) = true ∧
  (processAll h steps).2 = [] ∧
  lastNotifiedStatus (processAll h steps).1 = lastNotifiedStatus h.
Proof.
  split; [reflexivity|].
  apply (no_webhook_no_transition (new None 1000 ∅)). reflexivity.
Defined.

(** *** C3: availability notifications *)

(** One run of the state machine is one step of the transition table, or
    no notification at all; other targets are not touched. *)
Lemma checkForNotifications_step h t r :
  let h' := (checkForNotifications h t r).1 in
  let sent := (checkForNotifications h t r).2 in
  (∀ tid, tid ≠ id t →
     lastNotifiedStatus h' !! tid = lastNotifiedStatus h !! tid) ∧
  ((sent = [] ∧ lastNotifiedStatus h' = lastNotifiedStatus h) ∨
   (∃ ty, sent = [{| type := ty; target := t; result := r |}] ∧
          step (id t) (getNotified h (id t)) ty
          = Some (getNotified h' (id t)))).
Proof.
  unfold checkForNotifications.
  destruct (JS.str_falsy _); [by split; [|left]|].
  unfold getNotified, assignNotified, JS.fromObjectPrototype.
  destruct (lastNotifiedStatus h !! id t) as [[]|] eqn:Hown;
    [..|destruct (String.eqb (id t) "__proto__") eqn:Hproto;
        [|destruct (JS.objectPrototype !! id t) eqn:Htab]];
    destruct (isUp r); simpl;
    try destruct (slowResponseThreshold h <? responseTime r); simpl;
    (split; [intros tid Hne; by rewrite ?lookup_insert_ne|]);
    first [ by left
          | right; eexists; split; [reflexivity|]; simpl;
            rewrite ?lookup_insert_eq, ?Hown, ?Hproto, ?Htab; done ].
Qed.

Lemma trace_app key s tys1 tys2 :
  trace key s (tys1 ++ tys2) = trace key s tys1 ≫= λ s', trace key s' tys2.
Proof.
  revert s. induction tys1 as [|ty tys1 IH]; intros s; [done|].
  simpl. destruct (step key s ty); [apply IH|done].
Qed.

Lemma typesFor_app tid sent1 sent2 :
  typesFor tid (sent1 ++ sent2) = typesFor tid sent1 ++ typesFor tid sent2.
Proof. unfold typesFor, sentFor. by rewrite filter_app, fmap_app. Qed.

(** The notifications about a target follow the transition table, from
    what the lookup of its state gave to what it gives afterwards. *)
Lemma processAll_trace tid steps h :
  trace tid (getNotified h tid) (typesFor tid (processAll h steps).2)
  = Some (getNotified (processAll h steps).1 tid).
Proof.
  revert h. induction steps as [|[t r] steps IH]; intros h; [done|].
  simpl.
  destruct (processResult h t r) as [[h1 sent1]|e] eqn:Hp; [|by apply IH].
  destruct (processResult_check _ _ _ _ _ Hp) as (h0 & Hcheck & Hl & _).
  pose proof (checkForNotifications_step h0 t r) as [Hother Hthis].
  rewrite Hcheck in Hother, Hthis. simpl in Hother, Hthis.
  specialize (IH h1).
  destruct (processAll h1 steps) as [h2 sent2]; simpl in *.
  rewrite typesFor_app, trace_app.
  rewrite (getNotified_ext h h0) by (by rewrite Hl).
  destruct (decide (id t = tid)) as [<-|Hne].
  - destruct Hthis as [[-> Hs]|(ty & -> & Hs)].
    + simpl. by rewrite (getNotified_ext h0 h1) by (by rewrite Hs).
    + unfold typesFor, sentFor. rewrite filter_cons_True by done.
      simpl. rewrite Hs. simpl. done.
  - rewrite (getNotified_ext h0 h1) by (by rewrite Hother).
    destruct Hthis as [[-> _]|(ty & -> & _)]; [done|].
    unfold typesFor, sentFor. by rewrite filter_cons_False.
Qed.

(** On a target whose id is [__proto__] the lookup of the notified state
    gives the prototype, which is truthy, and the assignment is ignored:
    every down result sends [down] and the handler stays as it is. *)
Lemma checkForNotifications_proto h t r :
  JS.str_falsy (discordWebhookUrl h) = false →
  id t = "__proto__" →
  lastNotifiedStatus h !! "__proto__" = None →
  isUp r = false →
  checkForNotifications h t r
  = (h, [{| type := down; target := t; result := r |}]).
Proof.
  intros Hw Hid Hown Hdown. unfold checkForNotifications.
  rewrite Hw. unfold getNotified, assignNotified. rewrite Hid, Hown, Hdown.
  done.
Qed.

(** C3, at the failing input. A handler with a webhook URL, started over
    a storage directory that holds a file [__proto__.json], and a
    configured target with the id [__proto__] that refuses the
    connection: the first tick sends [down] about the target and so does
    the second, with nothing sent between them. *)
Theorem proto_target_down_twice :
  let h := initialize
             (new (Some webhook_url) 1000 {[ "__proto__.json" := [down_result 1] ]})
             (Some [proto_target]) ["__proto__.json"] in
  let refused now := λ _ : PingTarget,
    {| httpOutcome := HttpError {| JS.message := "connect ECONNREFUSED" |} 3;
       execOutcome := ExecRejects {| JS.message := "" |};
       clock := now |} in
  ∃ h1 h2 r1 r2,
    pingAllTargets h (refused 60001)
    = JS.Returns (h1, [{| type := down; target := proto_target; result := r1 |}]) ∧
    pingAllTargets h1 (refused 120001)
    = JS.Returns (h2, [{| type := down; target := proto_target; result := r2 |}]) ∧
    isUp r1 = false ∧ isUp r2 = false.
Proof.
  do 4 eexists. split; [vm_compute; reflexivity|].
  split; [vm_compute; reflexivity|]. done.
Qed.

(** *** C8: the retention cap *)

Lemma slice_neg {A} m (l : list A) : 0 < m → JS.slice (- m) l = keep m l.
Proof.
  intros Hm. unfold JS.slice, keep.
  destruct (Z.ltb_spec (- m) 0); [|lia]. f_equal. lia.
Qed.

Lemma keep_all {A} m (l : list A) : Z.of_nat (length l) ≤ m → keep m l = l.
Proof. intros. unfold keep. by replace (_ - _)%nat with 0%nat by lia. Qed.

Lemma keep_length {A} m (l : list A) :
  0 ≤ m → Z.of_nat (length (keep m l)) ≤ m.
Proof. intros. unfold keep. rewrite length_drop. lia. Qed.

Lemma keep_app {A} m (l k : list A) : keep m (keep m l ++ k) = keep m (l ++ k).
Proof.
  unfold keep. rewrite <- drop_app_le by lia.
  rewrite drop_drop. f_equal.
  rewrite !length_drop, !length_app. lia.
Qed.

Lemma keep_last {A} m (l : list A) x :
  0 < m → last (keep m (l ++ [x])) = Some x.
Proof.
  intros Hm. unfold keep.
  rewrite drop_app_le by (rewrite length_app; simpl; lia).
  apply last_snoc.
Qed.

Lemma trim_keep h pushed :
  0 < maxResultsPerTarget h → trim h pushed = keep (maxResultsPerTarget h) pushed.
Proof.
  intros Hm. unfold trim.
  destruct (Z.ltb_spec (maxResultsPerTarget h) (Z.of_nat (length pushed))).
  - by apply slice_neg.
  - by rewrite keep_all.
Qed.

Lemma assignResults_insert h key arr :
  is_Some (results h !! key) ∨ String.eqb key "__proto__" = false →
  assignResults h key arr = set_results <[key := arr]> h.
Proof.
  unfold assignResults. intros [[old ->]| ->]; [done|].
  by destruct (results h !! key).
Qed.

Lemma set_results_twice f g h :
  set_results f (set_results g h) = set_results (f ∘ g) h.
Proof. done. Qed.

(** [addResult] when the lookup finds an array the object owns, or
    nothing under a key that is not [__proto__]. *)
Lemma addResult_insert h tid r old :
  (results h !! tid = Some old ∧ getResults h tid = JS.Stored old) ∨
  (results h !! tid = None ∧ old = [] ∧ JS.falsy (getResults h tid) = true ∧
   String.eqb tid "__proto__" = false) →
  addResult h tid r
  = JS.Returns (set_results <[tid := trim h (old ++ [r])]> h).
Proof.
  intros Hcase. unfold addResult.
  set (h1 := if JS.falsy (getResults h tid) then assignResults h tid [] else h).
  assert (H1 : h1 = set_results <[tid := old]> h).
  { subst h1. destruct Hcase as [[Hown ->]|(Hown & -> & -> & Hproto)].
    - simpl. unfold set_results. destruct h; simpl in *. f_equal.
      by rewrite insert_id.
    - by rewrite assignResults_insert by (by right). }
  rewrite H1.
  rewrite (getResults_own _ tid old) by (simpl; apply lookup_insert_eq).
  cbn. f_equal.
  rewrite assignResults_insert by (left; simpl; by rewrite lookup_insert_eq).
  rewrite set_results_twice.
  unfold trim, JS.push.
  change (maxResultsPerTarget (set_results _ h)) with (maxResultsPerTarget h).
  destruct (_ <? _).
  - rewrite assignResults_insert by (left; simpl; by rewrite lookup_insert_eq).
    rewrite set_results_twice. unfold set_results. f_equal. simpl.
    by rewrite !insert_insert_eq.
  - unfold set_results. f_equal. simpl. by rewrite insert_insert_eq.
Qed.

(** When [addResult] has returned there is an array at the id, which is
    what [saveResults] then finds. *)
Lemma addResult_leaves_array h tid r h' :
  addResult h tid r = JS.Returns h' → ∃ arr, getResults h' tid = JS.Stored arr.
Proof.
  unfold addResult.
  set (h1 := if JS.falsy (getResults h tid) then assignResults h tid [] else h).
  destruct (getResults h1 tid) as [|arr| | |] eqn:Hget; try done.
  cbn. intros [= <-].
  destruct (results h1 !! tid) as [own|] eqn:Hown.
  - rewrite (assignResults_insert h1) by (left; eauto).
    destruct (_ <? _).
    + rewrite assignResults_insert by (left; simpl; rewrite lookup_insert_eq; eauto).
      eexists. apply getResults_own. simpl. apply lookup_insert_eq.
    + eexists. apply getResults_own. simpl. apply lookup_insert_eq.
  - assert (Hproto : String.eqb tid "__proto__" = true).
    { unfold getResults in Hget. rewrite Hown in Hget.
      destruct (String.eqb tid "__proto__") eqn:Hproto; [done|]. exfalso.
      destruct (resultsProto h1) as [proto|].
      - unfold JS.fromArray, JS.fromObjectPrototype in Hget.
        rewrite Hproto in Hget.
        destruct (String.eqb tid "length"); [done|].
        destruct (bool_decide _); [done|].
        destruct (JS.arrayPrototype !! tid); [done|].
        by destruct (JS.objectPrototype !! tid).
      - unfold JS.fromObjectPrototype in Hget. rewrite Hproto in Hget.
        by destruct (JS.objectPrototype !! tid). }
    unfold assignResults. rewrite Hown, Hproto. simpl. rewrite Hown.
    destruct (_ <? _); eexists; unfold getResults; simpl; rewrite Hown;
      unfold JS.fromArray; by rewrite Hproto.
Qed.

(** [addResult] on a target that owns its array. *)
Lemma addResult_own h tid arr r :
  results h !! tid = Some arr →
  addResult h tid r
  = JS.Returns (set_results <[tid := trim h (arr ++ [r])]> h).
Proof.
  intros Hown. apply addResult_insert. left.
  split; [done|by apply getResults_own].
Qed.

(** [addResult] on a target without array whose id is an ordinary key. *)
Lemma addResult_new h tid r :
  resultsProto h = None → ordinaryKey tid = true →
  results h !! tid = None →
  addResult h tid r = JS.Returns (set_results <[tid := trim h [r]]> h).
Proof.
  intros Hp Hk Hown.
  pose proof (getResults_ordinary h tid Hp Hk) as Hget. rewrite Hown in Hget.
  destruct (ordinaryKey_spec (A:=unit) tid Hk) as [_ Hproto].
  apply (addResult_insert h tid r []). right. by rewrite Hget.
Qed.

Lemma seriesOf_ordinary h tid :
  resultsProto h = None → ordinaryKey tid = true →
  seriesOf h tid = default [] (results h !! tid).
Proof.
  intros Hp Hk. unfold seriesOf. rewrite getResults_ordinary by done.
  by destruct (results h !! tid).
Qed.

Lemma addResult_ordinary h tid r :
  resultsProto h = None → ordinaryKey tid = true →
  addResult h tid r
  = JS.Returns (set_results <[tid := trim h (seriesOf h tid ++ [r])]> h).
Proof.
  intros Hp Hk. rewrite seriesOf_ordinary by done.
  destruct (results h !! tid) as [arr|] eqn:Hown.
  - by apply addResult_own.
  - by apply addResult_new.
Qed.

(** What a target retains after any appends: what it had when nothing
    was appended to it, and otherwise the last [maxResultsPerTarget] of
    what it had followed by what it was given. *)
Lemma appendAll_ordinary tid steps h :
  0 < maxResultsPerTarget h →
  resultsProto h = None →
  Forall (λ step, ordinaryKey step.1 = true) steps →
  ordinaryKey tid = true →
  ∃ h', appendAll h steps = JS.Returns h' ∧
        resultsProto h' = None ∧ settings h' = settings h ∧
        seriesOf h' tid
        = match resultsFor tid steps with
          | [] => seriesOf h tid
          | given => keep (maxResultsPerTarget h) (seriesOf h tid ++ given)
          end.
Proof.
  intros Hm Hp Hsteps Hk. revert h Hm Hp.
  induction Hsteps as [|[tid' r] steps Hk' _ IH]; intros h Hm Hp.
  - exists h. by repeat split.
  - simpl in Hk'. simpl. rewrite addResult_ordinary by done. cbn.
    set (h1 := set_results _ h).
    destruct (IH h1) as (h' & -> & Hp' & Hs' & Hser); [done..|].
    exists h'. split; [done|]. split; [done|]. split; [done|].
    rewrite Hser. unfold resultsFor.
    assert (Hser1 : seriesOf h1 tid
                    = if decide (tid' = tid)
                      then keep (maxResultsPerTarget h) (seriesOf h tid ++ [r])
                      else seriesOf h tid).
    { rewrite (seriesOf_ordinary h1) by done. subst h1. simpl.
      destruct (decide (tid' = tid)) as [->|Hne].
      - rewrite lookup_insert_eq. simpl. by apply trim_keep.
      - rewrite lookup_insert_ne by done. by rewrite seriesOf_ordinary. }
    rewrite Hser1. change (maxResultsPerTarget h1) with (maxResultsPerTarget h).
    destruct (decide (tid' = tid)) as [->|Hne].
    + rewrite fmap_cons. simpl.
      destruct (snd <$> filter _ steps) as [|r' given]; [done|].
      by rewrite keep_app, <- app_assoc.
    + done.
Qed.

(** A handler started over a stored series of 1001 results keeps all of
    them while results are appended to another target. *)
Lemma stored_series_above_cap_counterexample :
  let h := initialize
             (new None 1000 {[ "google.json" := (many_results "google" 1001).*2 ]})
             None ["google.json"] in
  ∃ h' kept,
    appendAll h [("other", down_result 1)] = JS.Returns h' ∧
    getResultsForTarget h' "google" = JS.Stored kept ∧
    maxResultsPerTarget h' < Z.of_nat (length kept).
Proof.
  do 2 eexists. split; [vm_compute; reflexivity|].
  split; [vm_compute; reflexivity|]. by vm_compute.
Qed.

(** C8, amended. For targets whose ids are ordinary keys, in results
    that have their original prototype, appends never throw and the
    retained list holds at most [maxResultsPerTarget] results once a
    result has been appended to the target, or when it held no more
    before; what is retained is then the tail of what the target had
    followed by what was appended to it, in append order, so that of
    [maxResultsPerTarget + k] results exactly [maxResultsPerTarget]
    remain, the first [k] having been dropped. Appends to other targets
    leave the list as it is. The handler is created with
    [maxResultsPerTarget = 1000]. *)
Theorem retention_cap h steps tid :
  0 < maxResultsPerTarget h →
  resultsProto h = None →
  Forall (λ step, ordinaryKey step.1 = true) steps →
  ordinaryKey tid = true →
  let old := seriesOf h tid in
  let appended := old ++ resultsFor tid steps in
  ∃ h' kept,
    appendAll h steps = JS.Returns h' ∧
    getResultsForTarget h' tid = JS.Stored kept ∧
    (resultsFor tid steps = [] → kept = old) ∧
    (resultsFor tid steps ≠ [] ∨ Z.of_nat (length old) ≤ maxResultsPerTarget h →
     Z.of_nat (length kept) ≤ maxResultsPerTarget h ∧
     kept = drop (length appended - Z.to_nat (maxResultsPerTarget h)) appended ∧
     ∀ k : nat,
       length appended = (Z.to_nat (maxResultsPerTarget h) + k)%nat →
       length kept = Z.to_nat (maxResultsPerTarget h) ∧ kept = drop k appended).
Proof.
  intros Hm Hp Hsteps Hk old appended.
  destruct (appendAll_ordinary tid steps h Hm Hp Hsteps Hk)
    as (h' & Happ & Hp' & _ & Hser).
  exists h', (seriesOf h' tid). split; [done|].
  split.
  { unfold getResultsForTarget, seriesOf.
    rewrite getResults_ordinary by done. by destruct (results h' !! tid). }
  split; [by intros Hnone; rewrite Hser, Hnone|].
  intros Hcap.
  assert (Hkept : seriesOf h' tid = keep (maxResultsPerTarget h) appended).
  { rewrite Hser. subst appended old.
    destruct (resultsFor tid steps) as [|r given] eqn:Hgiven; [|done].
    destruct Hcap as [?|Hlen]; [done|]. by rewrite app_nil_r, keep_all. }
  rewrite Hkept. split; [apply keep_length; lia|]. split; [done|].
  intros k Hlen. unfold keep. rewrite length_drop, Hlen.
  split; [lia|f_equal; lia].
Qed.

(** 1003 results appended to a new handler: the cap of 1000 applies. *)
Lemma retention_cap_witness :
  let h := new None 1000 ∅ in
  let steps := many_results "google" 1003 in
  (0 < maxResultsPerTarget h ∧ resultsProto h = None ∧
   Forall (λ step, ordinaryKey step.1 = true) steps ∧
   ordinaryKey "google" = true) ∧
  ∃ h' kept,
    appendAll h steps = JS.Returns h' ∧
    getResultsForTarget h' "google" = JS.Stored kept ∧
    length kept = 1000%nat ∧ kept = drop 3 (resultsFor "google" steps).
Proof.
  assert (H1 : 0 < maxResultsPerTarget (new None 1000 ∅)) by reflexivity.
  assert (H2 : resultsProto (new None 1000 ∅) = None) by reflexivity.
  assert (H3 : Forall (λ step, ordinaryKey step.1 = true)
                      (many_results "google" 1003)).
  { apply Forall_forall. intros step Hin. unfold many_results in Hin.
    apply list_elem_of_fmap in Hin as (i & -> & _). reflexivity. }
  assert (H4 : ordinaryKey "google" = true) by reflexivity.
  split; [exact (conj H1 (conj H2 (conj H3 H4)))|].
  destruct (retention_cap _ _ _ H1 H2 H3 H4)
    as (h' & kept & Happ & Hget & _ & Hcap).
  exists h', kept. split; [exact Happ|]. split; [exact Hget|].
  destruct Hcap as (_ & _ & Hk).
  { left. intros Hnil. apply (f_equal length) in Hnil.
    vm_compute in Hnil. discriminate Hnil. }
  apply (Hk 3%nat). by vm_compute.
Defined.

(** *** C9: uptime percentage *)

Lemma percentage_all n : n ≠ 0%nat → percentage n n = Qc_of_Z 100.
Proof.
  intros Hn. unfold percentage, Qcanon.Qcdiv.
  rewrite Qcanon.Qcmult_inv_r, Qcanon.Qcmult_1_l; [done|].
  rewrite <- Z2Qc_inj_0. intros ?%Z2Qc_inj. lia.
Qed.

Lemma percentage_3_of_4 : percentage 3 4 = Qc_of_Z 75.
Proof. apply Qcanon.Qc_is_canon. reflexivity. Qed.

Lemma countUp_all rs : Forall (λ r, isUp r = true) rs → countUp rs = length rs.
Proof.
  unfold countUp. induction 1 as [|r rs Hr _ IH]; [done|].
  rewrite filter_cons_True by done. simpl. by rewrite IH.
Qed.

(** When the entry of the target is an array or missing, the percentage
    is returned and computed from the window. *)
Lemma calculateUptimePercentage_window h tid days now :
  hasSeries h tid = true →
  calculateUptimePercentage h tid days now =
  JS.Returns match window h tid days now with
             | [] => Qc_of_Z 0
             | w => percentage (countUp w) (length w)
             end.
Proof.
  unfold hasSeries, calculateUptimePercentage, window, seriesOf.
  destruct (getResults h tid) as [|[|r rs]| | |]; try done. intros _.
  by destruct (filter _ (r :: rs)).
Qed.

(** What the lookup of an inherited method gives when the object does
    not own the key and has its original prototype. *)
Lemma getResults_inherited h key arity :
  resultsProto h = None → results h !! key = None →
  JS.objectPrototype !! key = Some arity →
  String.eqb key "__proto__" = false →
  getResults h key = JS.Builtin arity.
Proof.
  intros Hp Hown Htab Hproto. unfold getResults, JS.fromObjectPrototype.
  by rewrite Hown, Hp, Hproto, Htab.
Qed.

(** C9, at the failing input. For the target id [constructor] the lookup
    in the results gives the function every object inherits under that
    name: the guard lets it through and [calculateUptimePercentage]
    throws instead of returning 0; so does [addResult], so that the
    handler never comes to own results under that id. *)
Theorem uptime_of_inherited_id_throws h days now :
  resultsProto h = None →
  results h !! "constructor" = None →
  calculateUptimePercentage h "constructor" days now
  = JS.Throws (notAFunction "targetResults.filter") ∧
  window h "constructor" days now = [] ∧
  ∀ r, ∃ e, addResult h "constructor" r = JS.Throws e.
Proof.
  intros Hp Hown.
  pose proof (getResults_inherited h "constructor" 1 Hp Hown eq_refl eq_refl)
    as Hget.
  unfold calculateUptimePercentage, window, seriesOf, addResult.
  rewrite Hget. simpl. rewrite Hget. eauto.
Qed.

(** A handler that has been monitoring another target for two ticks is
    asked for the statistics of [constructor]. *)
Lemma uptime_of_inherited_id_throws_witness :
  let h := (processAll (initialize (new None 1000 ∅) None [])
              [(example_target, up_result 60000 50);
               (example_target, down_result 120000)]).1 in
  (resultsProto h = None ∧ results h !! "constructor" = None) ∧
  calculateUptimePercentage h "constructor" 1 130000
  = JS.Throws (notAFunction "targetResults.filter").
Proof.
  assert (H1 : resultsProto
                 (processAll (initialize (new None 1000 ∅) None [])
                    [(example_target, up_result 60000 50);
                     (example_target, down_result 120000)]).1 = None)
    by (by vm_compute).
  assert (H2 : results
                 (processAll (initialize (new None 1000 ∅) None [])
                    [(example_target, up_result 60000 50);
                     (example_target, down_result 120000)]).1
               !! "constructor" = None)
    by (by vm_compute).
  split; [exact (conj H1 H2)|].
  exact (proj1 (uptime_of_inherited_id_throws _ 1 130000 H1 H2)).
Defined.

(** *** C7: slow responses notify every time *)

Lemma checkForNotifications_slow h t r :
  JS.str_falsy (discordWebhookUrl h) = false →
  lastNotifiedStatus h !! id t = Some true →
  isUp r = true →
  slowResponseThreshold h < responseTime r →
  checkForNotifications h t r
  = (h, [{| type := slow; target := t; result := r |}]).
Proof.
  intros Hw Hs Hup Hslow. unfold checkForNotifications.
  rewrite Hw, (getNotified_own _ _ _ Hs), Hup. simpl.
  by destruct (Z.ltb_spec (slowResponseThreshold h) (responseTime r)); [|lia].
Qed.

(** The loop body on a target that owns its array: it returns, and the
    state machine has run on a handler with the same notified states and
    settings in which the target still owns an array. *)
Lemma processResult_own h t r :
  is_Some (results h !! id t) →
  ∃ h0, processResult h t r = JS.Returns (checkForNotifications h0 t r) ∧
        lastNotifiedStatus h0 = lastNotifiedStatus h ∧
        settings h0 = settings h ∧
        is_Some (results h0 !! id t).
Proof.
  intros [arr Hown]. unfold processResult.
  rewrite (addResult_own _ _ _ _ Hown). cbn.
  eexists. split; [reflexivity|].
  destruct (saveResults_frame
              (set_results <[id t := trim h (arr ++ [r])]> h) (id t))
    as (-> & -> & -> & _).
  simpl. rewrite lookup_insert_eq. eauto.
Qed.

(** Without a webhook URL a slow result of a target that is Up (its state
    was loaded from the stored results) sends nothing. *)
Lemma slow_without_webhook_counterexample :
  let h := initialize (new None 1000 {[ "google.json" := [up_result 1 50] ]})
             None ["google.json"] in
  let r := up_result 60001 1500 in
  lastNotifiedStatus h !! id example_target = Some true ∧
  isUp r = true ∧
  slowResponseThreshold h < responseTime r ∧
  (processAll h [(example_target, r)]).2 = [].
Proof. by vm_compute. Qed.

(** C7, amended. When a webhook URL is configured, a target's notified
    state is Up, and results arrive that are up with a response time
    above the threshold, every one of them sends one [slow]
    notification, and the notified state of every target is left as it
    was. The target has its array of results, as every target with a
    notified state has. *)
Theorem slow_notifies_every_tick h t rs :
  JS.str_falsy (discordWebhookUrl h) = false →
  lastNotifiedStatus h !! id t = Some true →
  is_Some (results h !! id t) →
  Forall (λ r, isUp r = true ∧ slowResponseThreshold h < responseTime r) rs →
  (processAll h ((λ r, (t, r)) <$> rs)).2
  = (λ r, {| type := slow; target := t; result := r |}) <$> rs ∧
  lastNotifiedStatus (processAll h ((λ r, (t, r)) <$> rs)).1
  = lastNotifiedStatus h.
Proof.
  intros Hw Hs Hown Hrs.
  remember (slowResponseThreshold h) as thr eqn:Hthr. revert h Hw Hs Hown Hthr.
  induction Hrs as [|r rs [Hup Hslow] _ IH]; intros h Hw Hs Hown Hthr; [done|].
  simpl.
  destruct (processResult_own h t r Hown) as (h0 & -> & Hl & Hset & Hown0).
  pose proof (settings_webhook _ _ Hset) as Hu.
  pose proof (settings_threshold _ _ Hset) as Ht.
  rewrite checkForNotifications_slow by congruence.
  destruct (IH h0) as [Hsent Hstate]; [congruence..|].
  destruct (processAll h0 _) as [h2 sent2]; simpl in *.
  split; [by rewrite Hsent | by rewrite Hstate].
Qed.

(** Two slow ticks in a row on a target that was up when the handler
    started: two [slow] notifications. *)
Lemma slow_notifies_every_tick_witness :
  let h := initialize (new (Some webhook_url) 1000
                         {[ "google.json" := [up_result 1 50] ]})
             None ["google.json"] in
  let rs := [up_result 60001 1500; up_result 120001 1200] in
  (JS.str_falsy (discordWebhookUrl h) = false ∧
   lastNotifiedStatus h !! id example_target = Some true ∧
   is_Some (results h !! id example_target) ∧
   Forall (λ r, isUp r = true ∧ slowResponseThreshold h < responseTime r) rs) ∧
  (processAll h ((λ r, (example_target, r)) <$> rs)).2
  = (λ r, {| type := slow; target := example_target; result := r |}) <$> rs ∧
  lastNotifiedStatus (processAll h ((λ r, (example_target, r)) <$> rs)).1
  = lastNotifiedStatus h.
Proof.
  assert (H1 : JS.str_falsy (discordWebhookUrl
                 (initialize (new (Some webhook_url) 1000
                    {[ "google.json" := [up_result 1 50] ]})
                    None ["google.json"])) = false)
    by (by vm_compute).
  assert (H2 : lastNotifiedStatus
                 (initialize (new (Some webhook_url) 1000
                    {[ "google.json" := [up_result 1 50] ]})
                    None ["google.json"])
               !! id example_target = Some true)
    by (by vm_compute).
  assert (H3 : is_Some (results
                 (initialize (new (Some webhook_url) 1000
                    {[ "google.json" := [up_result 1 50] ]})
                    None ["google.json"])
               !! id example_target))
    by (by vm_compute; eexists).
  assert (H4 : Forall (λ r, isUp r = true ∧
                 slowResponseThreshold
                   (initialize (new (Some webhook_url) 1000
                      {[ "google.json" := [up_result 1 50] ]})
                      None ["google.json"])
                 < responseTime r)
                 [up_result 60001 1500; up_result 120001 1200])
    by (repeat constructor).
  split; [exact (conj H1 (conj H2 (conj H3 H4)))|].
  exact (slow_notifies_every_tick _ example_target _ H1 H2 H3 H4).
Defined.

(** *** C6: the notified state and the stored series *)

Lemma append_length a b :
  String.length (String.append a b) = (String.length a + String.length b)%nat.
Proof. induction a as [|c a IH]; simpl; [done|]. by rewrite IH. Qed.

(** Different ids have different files. *)
Lemma fileOf_inj a b : fileOf a = fileOf b → a = b.
Proof.
  unfold fileOf. revert b.
  induction a as [|c a IH]; intros [|d b] Heq; simpl in Heq.
  - done.
  - apply (f_equal String.length) in Heq. simpl in Heq.
    rewrite append_length in Heq. simpl in Heq. lia.
  - apply (f_equal String.length) in Heq. simpl in Heq.
    rewrite append_length in Heq. simpl in Heq. lia.
  - injection Heq as -> Heq. f_equal. by apply IH.
Qed.

Lemma plainId_spec dir tid :
  plainId dir tid = true →
  ordinaryKey tid = true ∧ JS.hasNul tid = false ∧
  JS.entryOf dir (JS.pathJoin dir (fileOf tid)) = Some (fileOf tid) ∧
  JS.endsWith (fileOf tid) ".json" = true ∧
  JS.removeFirst ".json" (fileOf tid) = tid.
Proof.
  unfold plainId. rewrite !andb_true_iff, negb_true_iff.
  intros ((((? & ?) & ?%bool_decide_eq_true) & ?) & ?%String.eqb_eq). done.
Qed.


Lemma plainFile_fileOf dir tid :
  plainId dir tid = true → plainFile dir (fileOf tid) = true.
Proof.
  intros Hplain. pose proof (plainId_spec _ _ Hplain) as (_ & _ & _ & _ & Hid).
  unfold plainFile. rewrite Hid, Hplain, String.eqb_refl. apply orb_true_r.
Qed.

Lemma endsWith_fileOf tid : JS.endsWith (fileOf tid) ".json" = true.
Proof.
  unfold fileOf. induction tid as [|c tid IH]; [done|].
  simpl. rewrite IH. apply orb_true_r.
Qed.















(** *** C4: a probe never raises *)







(** *** C5: the up/down decision of an HTTP probe *)

(** A target that expects 404 and gets it is reported down. *)
Lemma expectedStatus_ignored_counterexample :
  let t := {| id := "api"; name := "API"; url := "https://api.example/missing";
              method := GET; timeout := None; headers := None;
              expectedStatus := Some 404 |} in
  let env := {| httpOutcome := HttpEnd (Some 404) None 20;
                execOutcome := ExecRejects {| JS.message := "" |};
                clock := 1000 |} in
  isUp_spec t (httpOutcome env) = true ∧
  ∃ r, pingTarget t env = JS.Returns r ∧ isUp r = false.
Proof. split; [reflexivity|]. eexists. split; reflexivity. Qed.

(** C5, amended. For an HTTP-family probe the result is up if and only
    if a response was received with a status code below 400, whatever
    the target declares as [expectedStatus]: that field is not consulted. *)
Theorem http_isUp_iff_below_400 t env :
  method t ≠ icmp →
  ∃ r, pingTarget t env = JS.Returns r ∧
       (isUp r = true ↔
        ∃ c server elapsed,
          httpOutcome env = HttpEnd (Some c) server elapsed ∧ c < 400).
Proof.
  intros Hm. unfold pingTarget.
  destruct (method t); [..|done];
    (destruct (httpOutcome env) as [e|[c|] sv el|e el|]; simpl;
     eexists; (split; [reflexivity|]); simpl;
     (split; [|intros (c' & sv' & el' & Heq & Hlt)]);
     try done;
     [intros Hlt%Z.ltb_lt; eauto
     |injection Heq as -> _ _; by apply Z.ltb_lt]).
Qed.

(** A target that expects 404 and gets a 301 is reported up. *)
Lemma http_isUp_iff_below_400_witness :
  let t := {| id := "api"; name := "API"; url := "https://api.example/missing";
              method := GET; timeout := None; headers := None;
              expectedStatus := Some 404 |} in
  let env := {| httpOutcome := HttpEnd (Some 301) (Some "nginx") 20;
                execOutcome := ExecRejects {| JS.message := "" |};
                clock := 1000 |} in
  method t ≠ icmp ∧
  ∃ r, pingTarget t env = JS.Returns r ∧
       (isUp r = true ↔
        ∃ c server elapsed,
          httpOutcome env = HttpEnd (Some c) server elapsed ∧ c < 400).
Proof.
  split; [discriminate|].
  apply (http_isUp_iff_below_400
           {| id := "api"; name := "API"; url := "https://api.example/missing";
              method := GET; timeout := None; headers := None;
              expectedStatus := Some 404 |}).
  discriminate.
Defined.

End PingProps.

(** ** Properties of the history store *)

Module HistoryProps.
Import History Spec Examples.

(** Reduce the field projections of a handler given by its fields. *)
Ltac fields :=
  cbn [cache currentRunNumber entriesInCurrentFile maxEntriesPerFile
       statusHistory].

(** With no run file on disk [initialize] changes nothing. *)
Lemma initialize_fresh : initialize (new ∅) = new ∅.
Proof. reflexivity. Qed.

Lemma addStatuses_snoc h statuses status :
  addStatuses h (statuses ++ [status]) = addStatus (addStatuses h statuses) status.
Proof. unfold addStatuses. by rewrite foldl_app. Qed.

(** Below the capacity every append rewrites [run-1.json] with all that
    was appended. *)
Lemma addStatuses_firstRun statuses :
  (length statuses < 700)%nat →
  addStatuses (new ∅) statuses = firstRun statuses.
Proof.
  induction statuses as [|status statuses IH] using rev_ind; intros Hlen; [done|].
  rewrite length_app in Hlen. simpl in Hlen.
  rewrite addStatuses_snoc, IH by lia.
  unfold addStatus, firstRun, saveCache, JS.push.
  fields.
  destruct (Nat.leb_spec 700 (S (length statuses))); [lia|].
  rewrite length_app. simpl length.
  replace (length statuses + 1)%nat with (S (length statuses)) by lia.
  f_equal.
  destruct statuses as [|s0 statuses']; simpl.
  - apply insert_empty.
  - apply insert_singleton_eq.
Qed.

(** The append that fills [run-1.json] seals it and carries the record
    it appended over into the next run. *)
Lemma addStatuses_rollover statuses status :
  length statuses = 699%nat →
  addStatuses (new ∅) (statuses ++ [status])
  = {| cache := {[ 1%nat := statuses ++ [status] ]};
       currentRunNumber := 2; entriesInCurrentFile := 1;
       maxEntriesPerFile := 700; statusHistory := [status] |}.
Proof.
  intros Hlen.
  rewrite addStatuses_snoc, addStatuses_firstRun by lia.
  unfold addStatus, firstRun, saveCache, JS.push.
  fields.
  destruct (Nat.leb_spec 700 (S (length statuses))); [|lia].
  f_equal.
  destruct statuses as [|s0 statuses']; simpl.
  - apply insert_empty.
  - apply insert_singleton_eq.
Qed.

Lemma loadAllHistory_two h first second :
  cache h = <[ 2%nat := second ]> {[ 1%nat := first ]} →
  loadAllHistory h = first ++ second.
Proof.
  intros Hc. unfold loadAllHistory. rewrite Hc.
  replace (merge_sort Nat.le _) with [1%nat; 2%nat] by (by vm_compute).
  simpl. rewrite lookup_insert_ne by done.
  by rewrite lookup_singleton_eq, lookup_insert_eq.
Qed.

Lemma slice_neg_all {A} count (l : list A) :
  Z.of_nat (length l) ≤ count → JS.slice (- count) l = l.
Proof.
  intros Hc. unfold JS.slice.
  destruct (Z.ltb_spec (- count) 0).
  - by replace (Z.to_nat _) with 0%nat by lia.
  - by replace (Z.to_nat _) with 0%nat by lia.
Qed.

Lemma filter_all {A} (P : A → Prop) `{!∀ x, Decision (P x)} (l : list A) :
  Forall P l → filter P l = l.
Proof.
  induction 1 as [|x l Hx _ IH]; [done|].
  by rewrite filter_cons_True, IH.
Qed.

(** After 701 appends to a fresh series the new chunk holds two
    records, not one, and the concatenation of the chunks is not the
    series that was appended: it has 702 records. *)
Lemma boundary_record_repeated_counterexample :
  let h701 := addStatuses (initialize (new ∅)) (samples 701) in
  length <$> cache h701 !! 2%nat = Some 2%nat ∧
  loadAllHistory h701 ≠ samples 701 ∧
  length (loadAllHistory h701) = 702%nat.
Proof.
  assert (Hlen : length (loadAllHistory
                           (addStatuses (initialize (new ∅)) (samples 701)))
                 = 702%nat) by (by vm_compute).
  split; [by vm_compute|]. split; [|exact Hlen].
  intros Heq. rewrite Heq in Hlen. vm_compute in Hlen. discriminate Hlen.
Qed.

(** C1, amended. On a fresh series the 700th append seals [run-1.json]
    with the 700 records and carries the 700th record over as the first
    record of run 2; the next append therefore writes [run-2.json] with
    two records, the 700th and the 701st. Concatenating the chunks in
    ascending order, as [loadAllHistory] does, gives the series in time
    order with no record lost and the 700th record twice, and so does a
    query across the boundary. *)
Theorem rotation_repeats_boundary_record statuses s700 s701 :
  length statuses = 699%nat →
  let h700 := addStatuses (initialize (new ∅)) (statuses ++ [s700]) in
  let h701 := addStatus h700 s701 in
  (cache h700 = {[ 1%nat := statuses ++ [s700] ]} ∧
   currentRunNumber h700 = 2%nat ∧ statusHistory h700 = [s700]) ∧
  (cache h701 !! 1%nat = Some (statuses ++ [s700]) ∧
   cache h701 !! 2%nat = Some [s700; s701]) ∧
  loadAllHistory h701 = statuses ++ [s700; s700; s701] ∧
  ∀ days count now,
    Forall (λ status, now - days * ms_per_day ≤ timestamp status)
           (statuses ++ [s700; s701]) →
    702 ≤ count →
    getHistory h701 days count now = statuses ++ [s700; s700; s701].
Proof.
  intros Hlen h700 h701. subst h701 h700.
  rewrite initialize_fresh, addStatuses_rollover by done.
  split; [done|].
  assert (Hall : loadAllHistory
                   (addStatus {| cache := {[ 1%nat := statuses ++ [s700] ]};
                                 currentRunNumber := 2; entriesInCurrentFile := 1;
                                 maxEntriesPerFile := 700; statusHistory := [s700] |}
                              s701)
                 = statuses ++ [s700; s700; s701]).
  { erewrite loadAllHistory_two; [|reflexivity]. by rewrite <- app_assoc. }
  split; [|split; [exact Hall|]].
  - split; [by vm_compute | by vm_compute].
  - intros days count now Hwin Hcount. unfold getHistory. rewrite Hall.
    rewrite filter_all.
    + apply slice_neg_all. rewrite length_app, Hlen. simpl. lia.
    + apply Forall_app in Hwin as [H1 H2].
      apply Forall_app. split; [done|].
      apply Forall_cons in H2 as [Hy H2].
      apply Forall_cons; split; [done|]. by apply Forall_cons.
Qed.

(** 701 samples, one per second: [run-2.json] holds two records and the
    history 702. *)
Lemma rotation_repeats_boundary_record_witness :
  let statuses := samples 699 in
  let s700 := sample 700000 in
  let s701 := sample 701000 in
  length statuses = 699%nat ∧
  let h701 := addStatus (addStatuses (initialize (new ∅)) (statuses ++ [s700])) s701 in
  length <$> cache h701 !! 2%nat = Some 2%nat ∧
  length (loadAllHistory h701) = 702%nat.
Proof.
  split; [by vm_compute|].
  destruct (rotation_repeats_boundary_record
              (samples 699) (sample 700000) (sample 701000))
    as (_ & [_ H2] & Hall & _); [by vm_compute|].
  cbv zeta. rewrite H2, Hall. split; [done|by vm_compute].
Defined.

(** C2, as the code has it. When the highest run file already holds 700
    records, [initialize] moves on to the next run number and zeroes the
    entry counter, but keeps the 700 records as the in-memory content of
    the run; the next append writes the new run file with those 700
    records followed by the appended one. *)
Theorem restart_on_full_run_keeps_old_records files n entries status :
  max_list (elements (dom files)) = n →
  files !! n = Some entries →
  length entries = 700%nat →
  let h0 := initialize (new files) in
  (currentRunNumber h0 = S n ∧ entriesInCurrentFile h0 = 0%nat ∧
   statusHistory h0 = entries) ∧
  cache (addStatus h0 status) !! S n = Some (entries ++ [status]) ∧
  cache (addStatus h0 status) !! n = Some entries.
Proof.
  intros Hmax Hn Hlen h0.
  assert (Hh0 : h0 = {| cache := files; currentRunNumber := S n;
                        entriesInCurrentFile := 0; maxEntriesPerFile := 700;
                        statusHistory := entries |}).
  { subst h0. unfold initialize, findLatestRunNumber, new.
    fields.
    assert (n ∈ elements (dom files)) as Hin
      by (apply elem_of_elements, elem_of_dom; eauto).
    destruct (elements (dom files)) as [|k ks] eqn:Hks;
      [by apply elem_of_nil in Hin|].
    cbn [length Nat.ltb Nat.leb]. rewrite Hmax, Hn, Hlen.
    reflexivity. }
  rewrite Hh0. split; [done|].
  unfold addStatus, saveCache, JS.push.
  fields.
  destruct (Nat.leb_spec 700 1); [lia|].
  cbn [cache]. rewrite lookup_insert_eq, lookup_insert_ne by lia. done.
Qed.

(** A restart over a [run-1.json] of 700 samples, then one append. *)
Lemma restart_on_full_run_keeps_old_records_witness :
  let files : gmap nat (list SystemStatus) := {[ 1%nat := samples 700 ]} in
  let h0 := initialize (new files) in
  (max_list (elements (dom files)) = 1%nat ∧
   files !! 1%nat = Some (samples 700) ∧
   length (samples 700) = 700%nat) ∧
  (currentRunNumber h0 = 2%nat ∧ entriesInCurrentFile h0 = 0%nat ∧
   statusHistory h0 = samples 700) ∧
  cache (addStatus h0 (sample 701000)) !! 2%nat
  = Some (samples 700 ++ [sample 701000]) ∧
  cache (addStatus h0 (sample 701000)) !! 1%nat = Some (samples 700).
Proof.
  split; [by vm_compute|].
  apply (restart_on_full_run_keeps_old_records
           {[ 1%nat := samples 700 ]} 1 (samples 700) (sample 701000));
    by vm_compute.
Defined.

End HistoryProps.

(** ** [Array.prototype.slice] from the end *)

Module SliceFacts.

(** A positive [count]: the last [count] elements. *)
Lemma slice_last {A} count (l : list A) :
  0 < count →
  JS.slice (- count) l = drop (length l - Z.to_nat count) l.
Proof.
  intros Hc. unfold JS.slice.
  destruct (Z.ltb_spec (- count) 0); [|lia]. f_equal. lia.
Qed.

(** [slice(-0)] is [slice(0)]: everything. *)
Lemma slice_zero {A} (l : list A) : JS.slice (- 0) l = l.
Proof. unfold JS.slice. simpl. by replace (Z.to_nat _) with 0%nat by lia. Qed.

(** A negative [count] turns into a positive start: the first [- count]
    elements are dropped. *)
Lemma slice_negative {A} count (l : list A) :
  count < 0 → JS.slice (- count) l = drop (Z.to_nat (- count)) l.
Proof.
  intros Hc. unfold JS.slice.
  destruct (Z.ltb_spec (- count) 0); [lia|].
  destruct (Z.min_spec (- count) (Z.of_nat (length l))) as [[_ ->]|[Hle ->]];
    [done|].
  rewrite Nat2Z.id, drop_all. symmetry. apply drop_ge. lia.
Qed.

Lemma drop_suffix {A} n (l : list A) : drop n l `suffix_of` l.
Proof. exists (take n l). by rewrite take_drop. Qed.

Lemma slice_last_spec {A} count (l : list A) :
  0 < count →
  JS.slice (- count) l `suffix_of` l ∧
  length (JS.slice (- count) l) = (Z.to_nat count `min` length l)%nat.
Proof.
  intros Hc. rewrite slice_last by done. split; [apply drop_suffix|].
  rewrite length_drop. lia.
Qed.

End SliceFacts.

(** ** More about the history store *)

Module HistoryMore.
Import History Spec SpecMore Examples.

Ltac fields :=
  cbn [cache currentRunNumber entriesInCurrentFile maxEntriesPerFile
       statusHistory].

(** *** The latest status *)

(** X1. Whatever the state of the store, the status just appended is the
    latest one. *)
Theorem addStatus_latest h status :
  getLatestStatus (addStatus h status) = Some status.
Proof.
  unfold getLatestStatus, addStatus, saveCache, JS.push. fields.
  destruct (_ <=? _)%nat; fields; [done|apply last_snoc].
Qed.

(** *** Run files as a list *)

Lemma sorted_seq start len : Sorted Nat.le (seq start len).
Proof.
  revert start. induction len as [|len IH]; intros start; simpl; [constructor|].
  constructor; [apply IH|].
  destruct len; simpl; constructor. unfold Nat.le. lia.
Qed.

Lemma run_files_sorted {A} (runs : list (list A)) :
  merge_sort Nat.le (elements (dom (map_seq 1 runs : gmap nat (list A))))
  = seq 1 (length runs).
Proof.
  apply (Sorted_unique Nat.le).
  - apply (Sorted_merge_sort Nat.le).
  - apply sorted_seq.
  - rewrite merge_sort_Permutation.
    apply NoDup_Permutation.
    + apply NoDup_elements.
    + apply NoDup_seq.
    + intros k. rewrite elem_of_elements, dom_seq, elem_of_set_seq, elem_of_seq.
      lia.
Qed.

Lemma foldl_concat_lookup {A} (m : gmap nat (list A)) ks acc :
  foldl (λ allHistory run, allHistory ++ default [] (m !! run)) acc ks
  = acc ++ concat ((λ run, default [] (m !! run)) <$> ks).
Proof.
  revert acc. induction ks as [|k ks IH]; intros acc; simpl.
  - by rewrite app_nil_r.
  - by rewrite IH, app_assoc.
Qed.

Lemma lookup_run_files {A} (runs : list (list A)) :
  (λ run, default [] ((map_seq 1 runs : gmap nat (list A)) !! run))
    <$> seq 1 (length runs)
  = runs.
Proof.
  apply list_eq. intros i. rewrite list_lookup_fmap.
  destruct (decide (i < length runs)%nat) as [Hi|Hi].
  - rewrite lookup_seq_lt by done. simpl.
    destruct (lookup_lt_is_Some_2 runs i Hi) as [run Hrun].
    rewrite Hrun. f_equal.
    apply (lookup_map_seq_Some_inv (M:=gmap nat) 1) in Hrun.
    simpl in Hrun. by rewrite Hrun.
  - rewrite lookup_seq_ge, lookup_ge_None_2 by lia. done.
Qed.

(** The history of a directory that holds the runs [1 .. n] is their
    concatenation. *)
Lemma loadAllHistory_runs h runs :
  cache h = map_seq 1 runs → loadAllHistory h = concat runs.
Proof.
  intros Hc. unfold loadAllHistory. rewrite Hc, run_files_sorted.
  by rewrite foldl_concat_lookup, lookup_run_files.
Qed.

(** *** The shape of a store that started empty *)

Lemma unoverlap_snoc_grow {A} (runs : list (list A)) run x :
  run ≠ [] →
  unoverlap (runs ++ [run ++ [x]]) = unoverlap (runs ++ [run]) ++ [x].
Proof.
  intros Hrun. destruct runs as [|first rest]; simpl.
  - by rewrite !app_nil_r.
  - rewrite !fmap_app, !concat_app. simpl. rewrite !app_nil_r.
    destruct run as [|y run]; [done|]. simpl. by rewrite !app_assoc.
Qed.

Lemma unoverlap_snoc_single {A} (runs : list (list A)) x :
  runs ≠ [] → unoverlap (runs ++ [[x]]) = unoverlap runs.
Proof.
  destruct runs as [|first rest]; [done|]. intros _. simpl.
  rewrite fmap_app, concat_app. simpl. by rewrite !app_nil_r.
Qed.

Lemma unoverlap_snoc_pair {A} (runs : list (list A)) y x :
  runs ≠ [] → unoverlap (runs ++ [[y; x]]) = unoverlap runs ++ [x].
Proof.
  destruct runs as [|first rest]; [done|]. intros _. simpl.
  rewrite fmap_app, concat_app. simpl. by rewrite !app_assoc.
Qed.

Lemma write_run {A} (runs : list (list A)) run :
  <[S (length runs) := run]> (map_seq 1 runs : gmap nat (list A))
  = map_seq 1 (runs ++ [run]).
Proof. by rewrite map_seq_snoc. Qed.

Lemma rewrite_run {A} (runs : list (list A)) old run :
  <[S (length runs) := run]> (map_seq 1 (runs ++ [old]) : gmap nat (list A))
  = map_seq 1 (runs ++ [run]).
Proof. by rewrite !map_seq_snoc, insert_insert_eq. Qed.

(** One append, shape by shape. *)
Lemma addStatus_shape h statuses status :
  maxEntriesPerFile h = 700%nat →
  entriesInCurrentFile h = length (statusHistory h) →
  shape h statuses →
  let h' := addStatus h status in
  maxEntriesPerFile h' = 700%nat ∧
  entriesInCurrentFile h' = length (statusHistory h') ∧
  shape h' (statuses ++ [status]).
Proof.
  intros Hmax Hcount Hshape. unfold addStatus, saveCache, JS.push. fields.
  rewrite Hmax, Hcount.
  destruct Hshape as [-> Hc Hr Hh|sealed Hc Hr Hs Hlen Hlen2 Hl
                     |sealed last Hc Hr Hs Hne Hh Hl].
  - rewrite Hh. simpl length.
    destruct (Nat.leb_spec 700 1); [lia|]. fields.
    split; [done|]. split; [done|].
    apply (shape_open _ _ []); fields; rewrite ?Hc, ?Hr; simpl;
      first [done | lia | by rewrite insert_empty | by left].
  - destruct (Nat.leb_spec 700 (S (length (statusHistory h)))); fields.
    + split; [done|]. split; [done|].
      apply (shape_rolled _ _ (sealed ++ [statusHistory h ++ [status]]) status);
        fields.
      * rewrite Hc, Hr. apply rewrite_run.
      * rewrite Hr, length_app. simpl. lia.
      * apply Forall_app. split; [done|]. constructor; [|done].
        rewrite length_app. simpl. lia.
      * by destruct sealed.
      * done.
      * rewrite unoverlap_snoc_grow, Hl; [done|].
        intros Hnil. rewrite Hnil in Hlen. simpl in Hlen. lia.
    + split; [done|]. split; [by rewrite length_app; simpl; lia|].
      apply (shape_open _ _ sealed); fields.
      * rewrite Hc, Hr. apply rewrite_run.
      * done.
      * done.
      * rewrite length_app. simpl. lia.
      * right. rewrite length_app. simpl. lia.
      * rewrite unoverlap_snoc_grow, Hl; [done|].
        intros Hnil. rewrite Hnil in Hlen. simpl in Hlen. lia.
  - rewrite Hh. simpl length.
    destruct (Nat.leb_spec 700 2); [lia|]. fields.
    split; [done|]. split; [done|].
    apply (shape_open _ _ sealed); fields; simpl.
    + rewrite Hc, Hr. apply write_run.
    + done.
    + done.
    + lia.
    + right. lia.
    + rewrite unoverlap_snoc_pair, Hl by done. done.
Qed.

Lemma addStatuses_shape statuses :
  let h := addStatuses (initialize (new ∅)) statuses in
  maxEntriesPerFile h = 700%nat ∧
  entriesInCurrentFile h = length (statusHistory h) ∧
  shape h statuses.
Proof.
  induction statuses as [|status statuses IH] using rev_ind.
  - split; [done|]. split; [done|]. by apply shape_fresh.
  - destruct IH as (Hmax & Hcount & Hshape).
    unfold addStatuses in *. rewrite foldl_app. simpl.
    by apply addStatus_shape.
Qed.

(** *** What a store that started empty keeps *)

Lemma size_run_files {A} (runs : list (list A)) start :
  size (map_seq start runs : gmap nat (list A)) = length runs.
Proof.
  revert start. induction runs as [|run runs IH]; intros start; simpl.
  - apply map_size_empty.
  - rewrite map_size_insert_None, IH; [done|].
    apply lookup_map_seq_None. lia.
Qed.

Lemma run_files_Forall {A} (P : list A → Prop) (runs : list (list A)) :
  Forall P runs →
  map_Forall (λ _ run, P run) (map_seq 1 runs : gmap nat (list A)).
Proof.
  intros HP n run [_ Hrun]%lookup_map_seq_Some.
  by eapply Forall_lookup_1.
Qed.

Lemma run_files_lookup {A} (runs : list (list A)) n :
  is_Some ((map_seq 1 runs : gmap nat (list A)) !! n)
  ↔ (1 ≤ n ≤ length runs)%nat.
Proof.
  rewrite <- not_eq_None_Some, lookup_map_seq_None. lia.
Qed.

(** X2. In a store that started empty, whatever has been appended: the
    entry counter is the length of the run in memory and stays below 700;
    the run files are numbered 1, 2, ... without a gap; every file holds
    at least 1 and at most 700 records; and the current run is the last
    file, or the one after it when the run has just been opened. *)
Theorem fresh_store_invariant statuses :
  let h := addStatuses (initialize (new ∅)) statuses in
  entriesInCurrentFile h = length (statusHistory h) ∧
  (entriesInCurrentFile h < 700)%nat ∧
  (∀ n, is_Some (cache h !! n) ↔ (1 ≤ n ≤ size (cache h))%nat) ∧
  map_Forall (λ _ run, (1 ≤ length run ≤ 700)%nat) (cache h) ∧
  (currentRunNumber h = size (cache h) ∨
   currentRunNumber h = S (size (cache h)) ∧ length (statusHistory h) ≤ 1)%nat.
Proof.
  intros h. destruct (addStatuses_shape statuses) as (_ & Hcount & Hshape).
  fold h in Hcount, Hshape. split; [done|]. rewrite Hcount.
  destruct Hshape as [-> Hc Hr Hh|sealed Hc Hr Hs Hlen Hlen2 Hl
                     |sealed last Hc Hr Hs Hne Hh Hl]; rewrite Hc, Hr.
  - rewrite Hh, map_size_empty. simpl. split; [lia|].
    split; [|split; [apply map_Forall_empty|right; split; [done|lia]]].
    intros n. rewrite lookup_empty. split; [by intros []|lia].
  - rewrite size_run_files, length_app. simpl. split; [lia|].
    split; [|split; [|left; lia]].
    + intros n. rewrite run_files_lookup, length_app. simpl. lia.
    + apply run_files_Forall, Forall_app. split.
      * eapply Forall_impl; [exact Hs|]. simpl. lia.
      * constructor; [lia|done].
  - rewrite size_run_files, Hh. simpl. split; [lia|].
    split; [|split; [|right; split; [done|lia]]].
    + intros n. by rewrite run_files_lookup.
    + apply run_files_Forall. eapply Forall_impl; [exact Hs|]. simpl. lia.
Qed.

Lemma unoverlap_sublist {A} (runs : list (list A)) :
  unoverlap runs `sublist_of` concat runs.
Proof.
  destruct runs as [|first rest]; simpl; [done|].
  apply sublist_app; [done|].
  induction rest as [|run rest IH]; simpl; [done|].
  apply sublist_app; [|done].
  destruct run; simpl; [done|]. by apply sublist_cons.
Qed.

Lemma concat_length_tails {A} (runs : list (list A)) :
  Forall (λ run, (1 ≤ length run)%nat) runs →
  length (concat runs) = (length (concat (tail <$> runs)) + length runs)%nat.
Proof.
  induction 1 as [|run runs Hrun _ IH]; [done|].
  rewrite fmap_cons. cbn [concat]. rewrite !length_app, IH.
  destruct run; cbn [tail length] in *; lia.
Qed.

Lemma concat_length_unoverlap {A} (runs : list (list A)) :
  Forall (λ run, (1 ≤ length run)%nat) runs →
  length (concat runs) = (length (unoverlap runs) + (length runs - 1))%nat.
Proof.
  destruct runs as [|first rest]; [done|].
  intros [_ Hrest]%Forall_cons. simpl.
  rewrite !length_app, concat_length_tails by done. lia.
Qed.

(** X3. In a store that started empty no appended status is ever lost or
    reordered: the history on disk contains the appended statuses in
    order, together with exactly one repeated record for every run file
    after the first. *)
Theorem fresh_store_history statuses :
  let h := addStatuses (initialize (new ∅)) statuses in
  statuses `sublist_of` loadAllHistory h ∧
  length (loadAllHistory h) = (length statuses + (size (cache h) - 1))%nat.
Proof.
  intros h. destruct (addStatuses_shape statuses) as (_ & _ & Hshape).
  fold h in Hshape.
  destruct Hshape as [-> Hc Hr Hh|sealed Hc Hr Hs Hlen Hlen2 Hl
                     |sealed last Hc Hr Hs Hne Hh Hl].
  - split; [apply sublist_nil_l|].
    rewrite (loadAllHistory_runs h []) by done. by rewrite Hc, map_size_empty.
  - rewrite (loadAllHistory_runs h _ Hc), Hc, size_run_files, <- Hl.
    split; [apply unoverlap_sublist|].
    apply concat_length_unoverlap, Forall_app. split.
    + eapply Forall_impl; [exact Hs|]. simpl. lia.
    + constructor; [lia|done].
  - rewrite (loadAllHistory_runs h _ Hc), Hc, size_run_files, <- Hl.
    split; [apply unoverlap_sublist|].
    apply concat_length_unoverlap.
    eapply Forall_impl; [exact Hs|]. simpl. lia.
Qed.

Lemma unoverlap_length {A} (runs : list (list A)) :
  runs ≠ [] →
  Forall (λ run, length run = 700%nat) runs →
  length (unoverlap runs) = (699 * length runs + 1)%nat.
Proof.
  intros Hne Hall.
  assert (Hc : length (concat runs) = (700 * length runs)%nat).
  { clear Hne. induction Hall as [|run runs Hrun _ IH]; simpl; [done|].
    rewrite length_app, IH, Hrun. lia. }
  pose proof (concat_length_unoverlap runs) as Hu.
  rewrite Hc in Hu. destruct runs; [done|]. simpl length in *.
  assert (Forall (λ run, (1 ≤ length run)%nat) (l :: runs))
    by (eapply Forall_impl; [exact Hall|]; simpl; lia).
  specialize (Hu ltac:(done)). simpl in Hu. lia.
Qed.

(** X4. Up to 700 appends to a store that started empty, the history on
    disk is exactly what was appended. *)
Theorem fresh_store_exact statuses :
  (length statuses ≤ 700)%nat →
  loadAllHistory (addStatuses (initialize (new ∅)) statuses) = statuses.
Proof.
  intros Hlen.
  destruct (addStatuses_shape statuses) as (_ & _ & Hshape).
  destruct Hshape as [-> Hc Hr Hh|sealed Hc Hr Hs Hl1 Hl2 Hl
                     |sealed last Hc Hr Hs Hne Hh Hl].
  - by rewrite (loadAllHistory_runs _ []).
  - rewrite (loadAllHistory_runs _ _ Hc).
    destruct sealed as [|first rest].
    + simpl in *. by rewrite !app_nil_r in *.
    + exfalso. destruct Hl2 as [|Hl2]; [done|].
      apply Forall_cons in Hs as [Hfirst _].
      rewrite <- Hl in Hlen. simpl in Hlen.
      rewrite length_app, Hfirst, fmap_app, concat_app, length_app in Hlen.
      simpl in Hlen. rewrite app_nil_r in Hlen.
      destruct (statusHistory _) as [|? [|? ?]]; simpl in *; lia.
  - rewrite (loadAllHistory_runs _ _ Hc).
    pose proof (unoverlap_length sealed Hne Hs) as Hu.
    rewrite Hl in Hu.
    destruct sealed as [|first [|second rest]]; [done| |simpl in Hu; lia].
    simpl in *. by rewrite !app_nil_r in *.
Qed.

Lemma fresh_store_exact_witness :
  (length (samples 700) ≤ 700)%nat ∧
  loadAllHistory (addStatuses (initialize (new ∅)) (samples 700)) = samples 700.
Proof.
  assert (H : (length (samples 700) ≤ 700)%nat) by (by vm_compute).
  split; [exact H|]. exact (fresh_store_exact _ H).
Defined.

(** *** Restart *)

(** X5. When the highest run file is not full, [initialize] leaves the
    disk alone, resumes that run with its records and its count, and the
    latest status is the last record of the file; the next append
    rewrites that file alone, with the status at its end, and stays in
    the run unless it was the 700th record of the file, in which case
    the run is sealed and the next one opened with that status. *)
Theorem restart_resumes_open_run files n entries status :
  max_list (elements (dom files)) = n →
  files !! n = Some entries →
  (length entries < 700)%nat →
  let h0 := initialize (new files) in
  let h := addStatus h0 status in
  (cache h0 = files ∧ currentRunNumber h0 = n ∧
   entriesInCurrentFile h0 = length entries ∧ statusHistory h0 = entries ∧
   getLatestStatus h0 = last entries) ∧
  cache h = <[n := entries ++ [status]]> files ∧
  ((S (length entries) < 700)%nat →
   currentRunNumber h = n ∧ entriesInCurrentFile h = S (length entries) ∧
   statusHistory h = entries ++ [status]) ∧
  (length entries = 699%nat →
   currentRunNumber h = S n ∧ entriesInCurrentFile h = 1%nat ∧
   statusHistory h = [status]).
Proof.
  intros Hmax Hn Hlen h0 h.
  assert (Hh0 : h0 = {| cache := files; currentRunNumber := n;
                        entriesInCurrentFile := length entries;
                        maxEntriesPerFile := 700; statusHistory := entries |}).
  { subst h0. unfold initialize, findLatestRunNumber, new. fields.
    assert (n ∈ elements (dom files)) as Hin
      by (apply elem_of_elements, elem_of_dom; eauto).
    destruct (elements (dom files)) as [|k ks] eqn:Hks;
      [by apply elem_of_nil in Hin|].
    destruct (Nat.ltb_spec 0 (length (k :: ks))); [|simpl in *; lia].
    rewrite Hmax, Hn.
    destruct (Nat.leb_spec 700 (length entries)); [lia|done]. }
  subst h. rewrite Hh0. split; [done|].
  unfold addStatus, saveCache, JS.push. fields.
  destruct (Nat.leb_spec 700 (S (length entries))) as [Hfull|Hopen]; fields.
  - split; [done|]. split; [lia|done].
  - split; [done|]. split; [done|lia].
Qed.

(** A restart over a [run-1.json] of 699 samples: the run is resumed,
    and the next append fills and seals it. *)
Lemma restart_resumes_open_run_witness :
  let files : gmap nat (list SystemStatus) := {[ 1%nat := samples 699 ]} in
  let h0 := initialize (new files) in
  let h := addStatus h0 (sample 700000) in
  (max_list (elements (dom files)) = 1%nat ∧
   files !! 1%nat = Some (samples 699) ∧
   (length (samples 699) < 700)%nat) ∧
  (currentRunNumber h0 = 1%nat ∧ statusHistory h0 = samples 699) ∧
  cache h = <[1%nat := samples 699 ++ [sample 700000]]> files ∧
  currentRunNumber h = 2%nat.
Proof.
  assert (H1 : max_list (elements (dom
                 ({[ 1%nat := samples 699 ]}
                  : gmap nat (list SystemStatus)))) = 1%nat) by (by vm_compute).
  assert (H2 : ({[ 1%nat := samples 699 ]}
                : gmap nat (list SystemStatus)) !! 1%nat
               = Some (samples 699)) by (by vm_compute).
  assert (H3 : (length (samples 699) < 700)%nat)
    by (apply Nat.ltb_lt; by vm_compute).
  split; [exact (conj H1 (conj H2 H3))|].
  destruct (restart_resumes_open_run _ _ _ (sample 700000) H1 H2 H3)
    as ((_ & Hr0 & _ & Hh0 & _) & Hc & _ & Hseal).
  split; [exact (conj Hr0 Hh0)|]. split; [exact Hc|].
  apply Hseal. by vm_compute.
Defined.

(** *** Queries *)

(** X6. For a positive [count], [getHistory] returns the newest
    [count] statuses of the window (all of them when the window holds
    fewer), in the order of the history, and nothing from outside the
    window. *)
Theorem getHistory_newest h days count now :
  0 < count →
  let inWindow := filter (λ status, now - days * ms_per_day ≤ timestamp status)
                         (loadAllHistory h) in
  let answer := getHistory h days count now in
  answer `suffix_of` inWindow ∧
  length answer = (Z.to_nat count `min` length inWindow)%nat ∧
  Forall (λ status, now - days * ms_per_day ≤ timestamp status) answer.
Proof.
  intros Hc inWindow answer.
  destruct (SliceFacts.slice_last_spec count inWindow Hc) as [Hsuf Hlen].
  split; [done|]. split; [done|].
  destruct Hsuf as [older Hsuf].
  assert (Hall : Forall (λ status, now - days * ms_per_day ≤ timestamp status)
                        inWindow).
  { apply Forall_forall. intros status Hin.
    by apply list_elem_of_filter in Hin as [? _]. }
  fold answer in Hsuf. rewrite Hsuf in Hall.
  by apply Forall_app in Hall as [_ ?].
Qed.

Lemma getHistory_newest_witness :
  let h := addStatuses (initialize (new ∅)) (samples 100) in
  let inWindow := filter (λ status, 50000 - 0 * ms_per_day ≤ timestamp status)
                         (loadAllHistory h) in
  let answer := getHistory h 0 10 50000 in
  0 < 10 ∧
  answer `suffix_of` inWindow ∧
  length answer = (Z.to_nat 10 `min` length inWindow)%nat ∧
  Forall (λ status, 50000 - 0 * ms_per_day ≤ timestamp status) answer.
Proof.
  split; [reflexivity|].
  apply (getHistory_newest (addStatuses (initialize (new ∅)) (samples 100))
           0 10 50000).
  reflexivity.
Defined.

(** X7. A [count] of 0 does not give an empty answer but the whole
    window, and a negative [count] drops that many of the oldest statuses
    of the window instead of limiting the answer. *)
Theorem getHistory_count_not_positive h days now :
  let inWindow := filter (λ status, now - days * ms_per_day ≤ timestamp status)
                         (loadAllHistory h) in
  getHistory h days 0 now = inWindow ∧
  ∀ count, count < 0 →
    getHistory h days count now = drop (Z.to_nat (- count)) inWindow.
Proof.
  intros inWindow. unfold getHistory. split.
  - apply SliceFacts.slice_zero.
  - intros count Hc. by apply SliceFacts.slice_negative.
Qed.

End HistoryMore.

(** ** More about the ping handler *)

Module PingMore.
Import Ping PingQueries Spec SpecMore Examples.

(** *** The latest result *)

(** The lookup for a key other than [__proto__] whose entry is an array
    or missing: the array is the object's own. *)
Lemma getResults_hasSeries h tid :
  hasSeries h tid = true → tid ≠ "__proto__" →
  getResults h tid = match results h !! tid with
                     | Some arr => JS.Stored arr
                     | None => JS.Undefined
                     end.
Proof.
  intros Hs Hne%String.eqb_neq. unfold hasSeries in Hs.
  unfold getResults in *. destruct (results h !! tid); [done|].
  destruct (resultsProto h) as [arr|].
  - unfold JS.fromArray, JS.fromObjectPrototype in *. rewrite Hne in *.
    destruct (String.eqb tid "length"); [done|].
    destruct (bool_decide _); [done|].
    destruct (JS.arrayPrototype !! tid); [done|].
    by destruct (JS.objectPrototype !! tid).
  - unfold JS.fromObjectPrototype in *. rewrite Hne in *.
    by destruct (JS.objectPrototype !! tid).
Qed.

Lemma seriesOf_hasSeries h tid :
  hasSeries h tid = true → tid ≠ "__proto__" →
  seriesOf h tid = default [] (results h !! tid).
Proof.
  intros Hs Hne. unfold seriesOf. rewrite getResults_hasSeries by done.
  by destruct (results h !! tid).
Qed.

(** [addResult] for such a key: the array the object owns afterwards. *)
Lemma addResult_hasSeries h tid r :
  hasSeries h tid = true → tid ≠ "__proto__" →
  addResult h tid r
  = JS.Returns (set_results <[tid := trim h (seriesOf h tid ++ [r])]> h).
Proof.
  intros Hs Hne. rewrite seriesOf_hasSeries by done.
  pose proof (getResults_hasSeries h tid Hs Hne) as Hget.
  apply PingProps.addResult_insert.
  destruct (results h !! tid) as [arr|]; [by left|right].
  rewrite Hget. repeat split; try done. by apply String.eqb_neq.
Qed.

(** The lookup after an array was written under another key that is not
    [__proto__] gives what it gave. *)
Lemma getResults_insert_ne h key arr tid :
  tid ≠ key →
  getResults (set_results <[key := arr]> h) tid = getResults h tid.
Proof. intros Hne. unfold getResults. simpl. by rewrite lookup_insert_ne. Qed.

(** X8. For a target whose entry is an array or missing, and a positive
    cap, [addResult] returns, the result just added is the latest result
    of its target, also when the cap made the list drop its oldest
    entry, and the latest result of every other target is what it was. *)
Theorem addResult_latest h tid result :
  0 < maxResultsPerTarget h →
  hasSeries h tid = true → tid ≠ "__proto__" →
  ∃ h', addResult h tid result = JS.Returns h' ∧
        getLatestResultForTarget h' tid = Some result ∧
        ∀ tid', tid' ≠ tid →
          getLatestResultForTarget h' tid' = getLatestResultForTarget h tid'.
Proof.
  intros Hm Hs Hne. rewrite addResult_hasSeries by done.
  eexists. split; [reflexivity|]. split.
  - unfold getLatestResultForTarget.
    rewrite (PingProps.getResults_own _ tid (trim h (seriesOf h tid ++ [result])))
      by (simpl; apply lookup_insert_eq).
    rewrite PingProps.trim_keep by done. by apply PingProps.keep_last.
  - intros tid' Hne'. unfold getLatestResultForTarget.
    by rewrite getResults_insert_ne.
Qed.

(** The 1001st result of a target. *)
Lemma addResult_latest_witness :
  let h := (processAll (new None 1000 ∅)
              (prod_map (λ _, example_target) (λ r, r)
                 <$> many_results "google" 1000)).1 in
  (0 < maxResultsPerTarget h ∧ hasSeries h "google" = true ∧
   "google" ≠ "__proto__") ∧
  ∃ h', addResult h "google" (down_result 1) = JS.Returns h' ∧
        getLatestResultForTarget h' "google" = Some (down_result 1).
Proof.
  assert (H1 : 0 < maxResultsPerTarget
                 (processAll (new None 1000 ∅)
                    (prod_map (λ _, example_target) (λ r, r)
                       <$> many_results "google" 1000)).1)
    by (by vm_compute).
  assert (H2 : hasSeries
                 (processAll (new None 1000 ∅)
                    (prod_map (λ _, example_target) (λ r, r)
                       <$> many_results "google" 1000)).1 "google" = true)
    by (by vm_compute).
  assert (H3 : "google" ≠ "__proto__") by discriminate.
  split; [exact (conj H1 (conj H2 H3))|].
  destruct (addResult_latest _ "google" (down_result 1) H1 H2 H3)
    as (h' & Hadd & Hlatest & _).
  exists h'. exact (conj Hadd Hlatest).
Defined.

(** *** Memory and disk *)





(** *** Notifications and results *)

(** X10. Every notification is about a result that was processed: the
    (target, result) pairs of the notifications sent form a subsequence
    of the processed pairs, so a result sends at most one notification
    and notifications leave in the order of the results. *)
Theorem notifications_follow_results h steps :
  ((λ n, (target n, result n)) <$> (processAll h steps).2)
    `sublist_of` steps.
Proof.
  revert h. induction steps as [|[t r] steps IH]; intros h; [done|].
  simpl.
  destruct (processResult h t r) as [[h1 sent1]|e] eqn:Hproc;
    [|by apply sublist_cons].
  destruct (PingProps.processResult_check _ _ _ _ _ Hproc) as (h0 & Hcheck & _).
  pose proof (PingProps.checkForNotifications_step h0 t r) as [_ Hthis].
  rewrite Hcheck in Hthis. simpl in Hthis.
  specialize (IH h1). destruct (processAll h1 steps) as [h2 sent2].
  simpl in *. rewrite fmap_app.
  destruct Hthis as [[-> _]|(ty & -> & _)]; simpl.
  - by apply sublist_cons.
  - by apply sublist_skip.
Qed.

(** No notification leads back to a state that was never set. *)
Lemma trace_to_unset key s tys :
  trace key s tys = Some JS.Undefined → tys = [] ∧ s = JS.Undefined.
Proof.
  revert s. induction tys as [|ty tys IH]; intros s; simpl.
  - by intros [= ->].
  - destruct (step key s ty) as [s'|] eqn:Hstep; [|done].
    intros [_ ->]%IH. exfalso. revert Hstep. unfold step.
    destruct s as [|[]|n| |], ty; simpl; try done;
      try destruct (n =? 0); simpl; try done;
      by destruct (String.eqb key "__proto__").
Qed.

(** X11. An [initial-up] or [initial-down] notification is sent only for
    a target that had no notified state, and it is the first notification
    about that target: a target whose state was loaded at startup never
    gets one, and no target gets two. *)
Theorem initial_notification_first h steps tid pre n post :
  sentFor tid (processAll h steps).2 = pre ++ n :: post →
  type n = initial_up ∨ type n = initial_down →
  pre = [] ∧ lastNotifiedStatus h !! tid = None.
Proof.
  intros Hsent Hty.
  pose proof (PingProps.processAll_trace tid steps h) as Htr.
  unfold typesFor in Htr. rewrite Hsent, fmap_app, PingProps.trace_app in Htr.
  destruct (trace tid _ (type <$> pre)) as [s1|] eqn:Hpre; [|done].
  simpl in Htr.
  assert (s1 = JS.Undefined) as ->.
  { destruct (step tid s1 (type n)) eqn:Hstep; [|done].
    revert Hstep. unfold step.
    destruct s1 as [|[]| | |]; [done|..]; destruct Hty as [-> | ->]; done. }
  apply trace_to_unset in Hpre as [Hnil Hs].
  split; [by apply fmap_nil_inv in Hnil|].
  by apply PingProps.getNotified_Undefined.
Qed.

Lemma initial_notification_first_witness :
  let h := new (Some webhook_url) 1000 ∅ in
  let steps := [(example_target, up_result 1 50); (example_target, down_result 2)] in
  let n := {| type := initial_up; target := example_target;
              result := up_result 1 50 |} in
  let post := [{| type := down; target := example_target;
                  result := down_result 2 |}] in
  (sentFor "google" (processAll h steps).2 = [] ++ n :: post ∧
   (type n = initial_up ∨ type n = initial_down)) ∧
  ([] : list Notification) = [] ∧ lastNotifiedStatus h !! "google" = None.
Proof.
  assert (H1 : sentFor "google"
                 (processAll (new (Some webhook_url) 1000 ∅)
                    [(example_target, up_result 1 50);
                     (example_target, down_result 2)]).2
               = [] ++ {| type := initial_up; target := example_target;
                          result := up_result 1 50 |}
                 :: [{| type := down; target := example_target;
                        result := down_result 2 |}]) by (by vm_compute).
  split; [split; [exact H1|by left]|].
  exact (initial_notification_first _ _ _ _ _ _ H1 (or_introl eq_refl)).
Defined.

(** X12. No storm: while a target keeps the state it was notified in
    (down results for a Down target; up results within the threshold for
    an Up target) nothing is sent and no state changes, however many
    results arrive and whether or not a webhook URL is configured. *)
Theorem steady_state_silent h t b rs :
  lastNotifiedStatus h !! id t = Some b →
  Forall (λ r, isUp r = b ∧
               (b = true → responseTime r ≤ slowResponseThreshold h)) rs →
  (processAll h ((λ r, (t, r)) <$> rs)).2 = [] ∧
  lastNotifiedStatus (processAll h ((λ r, (t, r)) <$> rs)).1
  = lastNotifiedStatus h.
Proof.
  intros Hs Hrs.
  remember (slowResponseThreshold h) as thr eqn:Hthr. revert h Hs Hthr.
  induction Hrs as [|r rs [Hup Hfast] _ IH]; intros h Hs Hthr; [done|].
  simpl.
  destruct (processResult h t r) as [[h1 sent1]|e] eqn:Hproc; [|by apply IH].
  destruct (PingProps.processResult_check _ _ _ _ _ Hproc)
    as (h0 & Hcheck & Hl & Hset).
  pose proof (PingProps.settings_threshold _ _ Hset) as Ht.
  assert (Hsilent : checkForNotifications h0 t r = (h0, [])).
  { unfold checkForNotifications.
    destruct (JS.str_falsy _); [done|].
    rewrite (PingProps.getNotified_own h0 (id t) b) by congruence.
    rewrite Hup. destruct b; simpl; [|done].
    destruct (Z.ltb_spec (slowResponseThreshold h0) (responseTime r)); [|done].
    specialize (Hfast eq_refl). lia. }
  rewrite Hsilent in Hcheck. injection Hcheck as <- <-.
  destruct (IH h0) as [Hsent Hstate]; [congruence..|].
  destruct (processAll h0 _) as [h2 sent2]; simpl in *.
  split; [done|congruence].
Qed.

Lemma steady_state_silent_witness :
  let h := initialize (new (Some webhook_url) 1000
                         {[ "google.json" := [down_result 1] ]})
             None ["google.json"] in
  let rs := [down_result 60001; down_result 120001; down_result 180001] in
  (lastNotifiedStatus h !! id example_target = Some false ∧
   Forall (λ r, isUp r = false ∧
                (false = true → responseTime r ≤ slowResponseThreshold h)) rs) ∧
  (processAll h ((λ r, (example_target, r)) <$> rs)).2 = [].
Proof.
  assert (H1 : lastNotifiedStatus
                 (initialize (new (Some webhook_url) 1000
                    {[ "google.json" := [down_result 1] ]})
                    None ["google.json"])
               !! id example_target = Some false) by (by vm_compute).
  assert (H2 : Forall (λ r, isUp r = false ∧
                 (false = true →
                  responseTime r
                  ≤ slowResponseThreshold
                      (initialize (new (Some webhook_url) 1000
                         {[ "google.json" := [down_result 1] ]})
                         None ["google.json"])))
                 [down_result 60001; down_result 120001; down_result 180001])
    by (repeat (constructor;
                [split; [reflexivity|intros Hf; discriminate Hf]|]);
        constructor).
  split; [exact (conj H1 H2)|].
  exact (proj1 (steady_state_silent _ example_target false _ H1 H2)).
Defined.

(** *** Statistics *)

Lemma Qc_of_Z_pos n : 0 < n → Qcanon.Qclt (Qc_of_Z 0) (Qc_of_Z n).
Proof. apply Z2Qc_inj_lt. Qed.

Lemma Qc_div_mul x y :
  y ≠ Qc_of_Z 0 → Qcanon.Qcmult (Qcanon.Qcdiv x y) y = x.
Proof.
  intros Hy. unfold Qcanon.Qcdiv.
  rewrite <- Qcanon.Qcmult_assoc, (Qcanon.Qcmult_comm (Qcanon.Qcinv y)).
  rewrite Qcanon.Qcmult_inv_r, Qcanon.Qcmult_1_r; [done|].
  by rewrite <- Z2Qc_inj_0.
Qed.

(** A quotient of integers lies between two integers when the numerator
    lies between their multiples of the denominator. *)
Lemma Qc_quotient_bounds lo hi total n :
  0 < n → lo * n ≤ total ≤ hi * n →
  Qcanon.Qcle (Qc_of_Z lo) (Qcanon.Qcdiv (Qc_of_Z total) (Qc_of_Z n)) ∧
  Qcanon.Qcle (Qcanon.Qcdiv (Qc_of_Z total) (Qc_of_Z n)) (Qc_of_Z hi).
Proof.
  intros Hn [Hlo Hhi].
  pose proof (Qc_of_Z_pos n Hn) as Hpos.
  assert (Hne : Qc_of_Z n ≠ Qc_of_Z 0) by (intros ?%Z2Qc_inj; lia).
  rewrite Z2Qc_inj_0 in Hpos.
  split.
  - apply (Qcmult_le_mono_pos_r _ _ (Qc_of_Z n) Hpos).
    rewrite (Qc_div_mul _ _ Hne), <- Z2Qc_inj_mul.
    exact (proj1 (Z2Qc_inj_le _ _) Hlo).
  - apply (Qcmult_le_mono_pos_r _ _ (Qc_of_Z n) Hpos).
    rewrite (Qc_div_mul _ _ Hne), <- Z2Qc_inj_mul.
    exact (proj1 (Z2Qc_inj_le _ _) Hhi).
Qed.

Lemma countUp_le rs : (countUp rs ≤ length rs)%nat.
Proof. unfold countUp. apply length_filter. Qed.

(** X25. When the entry of the target is an array or missing,
    [calculateUptimePercentage] returns the number of up results in the
    window over the number of results in the window, times 100, and 0
    when the window is empty; it is 100 when every result of a non-empty
    window is up, and 75 when the window holds 3 up results and 1 down
    result. *)
Theorem uptime_percentage h tid days now :
  hasSeries h tid = true →
  let w := window h tid days now in
  ∃ pct, calculateUptimePercentage h tid days now = JS.Returns pct ∧
    (w = [] → pct = Qc_of_Z 0) ∧
    (w ≠ [] → pct = percentage (countUp w) (length w)) ∧
    (w ≠ [] → Forall (λ r, isUp r = true) w → pct = Qc_of_Z 100) ∧
    (countUp w = 3%nat → length w = 4%nat → pct = Qc_of_Z 75).
Proof.
  intros Hs w. subst w.
  rewrite PingProps.calculateUptimePercentage_window by done.
  eexists. split; [reflexivity|].
  generalize (window h tid days now). intros w. repeat split.
  - by intros ->.
  - by destruct w.
  - intros Hne Hall. destruct w as [|r w']; [done|]. cbv zeta.
    rewrite PingProps.countUp_all by done. by apply PingProps.percentage_all.
  - intros Hup Hlen. destruct w as [|r w']; [done|]. cbv zeta.
    rewrite Hup, Hlen. apply PingProps.percentage_3_of_4.
Qed.

(** Five results of which the oldest is outside the window of one day: 3 up
    and 1 down in the window give 75. *)
Lemma uptime_percentage_witness :
  let h := (processAll (new None 1000 ∅)
              [(example_target, up_result 1000 50);
               (example_target, up_result 2000 50);
               (example_target, down_result 3000);
               (example_target, up_result 4000 50);
               (example_target, up_result 5000 50)]).1 in
  let now := ms_per_day + 2000 in
  let w := window h "google" 1 now in
  (hasSeries h "google" = true ∧ countUp w = 3%nat ∧ length w = 4%nat) ∧
  calculateUptimePercentage h "google" 1 now = JS.Returns (Qc_of_Z 75).
Proof.
  set (h := (processAll (new None 1000 ∅)
               [(example_target, up_result 1000 50);
                (example_target, up_result 2000 50);
                (example_target, down_result 3000);
                (example_target, up_result 4000 50);
                (example_target, up_result 5000 50)]).1).
  assert (H1 : hasSeries h "google" = true) by (by vm_compute).
  assert (H2 : countUp (window h "google" 1 (ms_per_day + 2000)) = 3%nat)
    by (by vm_compute).
  assert (H3 : length (window h "google" 1 (ms_per_day + 2000)) = 4%nat)
    by (by vm_compute).
  split; [exact (conj H1 (conj H2 H3))|].
  destruct (uptime_percentage h "google" 1 (ms_per_day + 2000) H1)
    as (pct & Hpct & _ & _ & _ & H75).
  rewrite Hpct. f_equal. exact (H75 H2 H3).
Defined.

Lemma percentage_bounds up all :
  (up ≤ all)%nat → (0 < all)%nat →
  Qcanon.Qcle (Qc_of_Z 0) (percentage up all) ∧
  Qcanon.Qcle (percentage up all) (Qc_of_Z 100).
Proof.
  intros Hle Hpos. unfold percentage.
  destruct (Qc_quotient_bounds 0 1 (Z.of_nat up) (Z.of_nat all)) as [H0 H1];
    [lia|lia|].
  assert (H100 : Qcanon.Qcle (Qc_of_Z 0) (Qc_of_Z 100))
    by (apply (proj1 (Z2Qc_inj_le _ _)); lia).
  rewrite Z2Qc_inj_0 in H100.
  split.
  - apply (Qcmult_le_mono_nonneg_r _ _ _ H100) in H0.
    by rewrite Z2Qc_inj_0, Qcanon.Qcmult_0_l in *.
  - apply (Qcmult_le_mono_nonneg_r _ _ _ H100) in H1.
    by rewrite Z2Qc_inj_1, Qcanon.Qcmult_1_l in H1.
Qed.

(** X13. Whatever [calculateUptimePercentage] returns is between 0 and
    100; and it returns whenever the entry of the target is an array or
    missing. *)
Theorem uptime_percentage_bounds h tid days now :
  (∀ pct, calculateUptimePercentage h tid days now = JS.Returns pct →
          Qcanon.Qcle (Qc_of_Z 0) pct ∧ Qcanon.Qcle pct (Qc_of_Z 100)) ∧
  (hasSeries h tid = true →
   ∃ pct, calculateUptimePercentage h tid days now = JS.Returns pct).
Proof.
  assert (Hzero : Qcanon.Qcle (Qc_of_Z 0) (Qc_of_Z 0) ∧
                  Qcanon.Qcle (Qc_of_Z 0) (Qc_of_Z 100))
    by (split; apply (proj1 (Z2Qc_inj_le _ _)); lia).
  split.
  - intros pct. unfold calculateUptimePercentage.
    destruct (getResults h tid) as [|[|r rs]|n|arity|];
      try destruct (n =? 0); try destruct (arity =? 0);
      try (by intros [= <-]); try done.
    cbv zeta. destruct (filter _ (r :: rs)) as [|r' w] eqn:Hw;
      [by intros [= <-]|].
    simpl. intros [= <-].
    apply percentage_bounds; [apply countUp_le|simpl; lia].
  - intros Hs. rewrite PingProps.calculateUptimePercentage_window by done.
    eauto.
Qed.

Lemma foldl_sum_bounds lo hi rs acc :
  Forall (λ r, lo ≤ responseTime r ≤ hi) rs →
  acc + lo * Z.of_nat (length rs)
  ≤ foldl (λ sum r, sum + responseTime r) acc rs
  ≤ acc + hi * Z.of_nat (length rs).
Proof.
  intros Hrs. revert acc.
  induction Hrs as [|r rs Hr _ IH]; intros acc; simpl; [lia|].
  specialize (IH (acc + responseTime r)). lia.
Qed.

Lemma getAverageResponseTime_upWindow h tid days now :
  hasSeries h tid = true →
  getAverageResponseTime h tid days now =
  JS.Returns match upWindow h tid days now with
             | [] => Qc_of_Z 0
             | rs => Qcanon.Qcdiv
                       (Qc_of_Z (foldl (λ sum r, sum + responseTime r) 0 rs))
                       (Qc_of_Z (Z.of_nat (length rs)))
             end.
Proof.
  unfold hasSeries, getAverageResponseTime, upWindow, seriesOf.
  destruct (getResults h tid) as [|[|r rs]| | |]; try done. intros _.
  by destruct (filter _ (r :: rs)).
Qed.

(** X14. When the entry of the target is an array or missing,
    [getAverageResponseTime] returns; it counts only the up results of
    the window: it is 0 when there is none, and otherwise lies between
    the smallest and the largest of their response times. *)
Theorem average_response_time_bounds h tid days now lo hi :
  hasSeries h tid = true →
  ∃ avg, getAverageResponseTime h tid days now = JS.Returns avg ∧
    (upWindow h tid days now = [] → avg = Qc_of_Z 0) ∧
    (upWindow h tid days now ≠ [] →
     Forall (λ r, lo ≤ responseTime r ≤ hi) (upWindow h tid days now) →
     Qcanon.Qcle (Qc_of_Z lo) avg ∧ Qcanon.Qcle avg (Qc_of_Z hi)).
Proof.
  intros Hs. rewrite getAverageResponseTime_upWindow by done.
  eexists. split; [reflexivity|].
  destruct (upWindow h tid days now) as [|r rs]; [done|].
  split; [done|]. intros _ Hall. cbv zeta.
  apply Qc_quotient_bounds; [simpl; lia|].
  pose proof (foldl_sum_bounds lo hi (r :: rs) 0 Hall). lia.
Qed.

Lemma average_response_time_bounds_witness :
  let h := (processAll (new None 1000 ∅)
              [(example_target, up_result 1000 40);
               (example_target, down_result 2000);
               (example_target, up_result 3000 60);
               (example_target, up_result 4000 80)]).1 in
  let now := ms_per_day + 2000 in
  (hasSeries h "google" = true ∧ upWindow h "google" 1 now ≠ [] ∧
   Forall (λ r, 60 ≤ responseTime r ≤ 80) (upWindow h "google" 1 now)) ∧
  ∃ avg, getAverageResponseTime h "google" 1 now = JS.Returns avg ∧
         Qcanon.Qcle (Qc_of_Z 60) avg ∧ Qcanon.Qcle avg (Qc_of_Z 80).
Proof.
  set (h := (processAll (new None 1000 ∅)
               [(example_target, up_result 1000 40);
                (example_target, down_result 2000);
                (example_target, up_result 3000 60);
                (example_target, up_result 4000 80)]).1).
  assert (H0 : hasSeries h "google" = true) by (by vm_compute).
  assert (Hw : upWindow h "google" 1 (ms_per_day + 2000)
               = [up_result 3000 60; up_result 4000 80]) by (by vm_compute).
  assert (H1 : upWindow h "google" 1 (ms_per_day + 2000) ≠ [])
    by (by rewrite Hw).
  assert (H2 : Forall (λ r, 60 ≤ responseTime r ≤ 80)
                 (upWindow h "google" 1 (ms_per_day + 2000)))
    by (rewrite Hw; repeat constructor; simpl; lia).
  split; [exact (conj H0 (conj H1 H2))|].
  destruct (average_response_time_bounds h "google" 1 (ms_per_day + 2000) 60 80 H0)
    as (avg & Havg & _ & Hbounds).
  exists avg. split; [exact Havg|]. exact (Hbounds H1 H2).
Defined.

(** *** The host name of the ping command *)

Lemma stripPrefix_Some prefix s rest :
  stripPrefix prefix s = Some rest → s = String.append prefix rest.
Proof.
  revert s. induction prefix as [|a prefix IH]; intros s; simpl.
  - by intros [= ->].
  - destruct s as [|b s]; [done|].
    destruct (Ascii.eqb_spec a b) as [->|]; [|done].
    by intros ->%IH.
Qed.

Lemma noSlash_cons a s : noSlash (String a s) ↔ a ≠ "/"%char ∧ noSlash s.
Proof.
  unfold noSlash. simpl. rewrite not_elem_of_cons.
  split; intros [H1 H2]; (split; [congruence|done]).
Qed.

Lemma beforeChar_noSlash s : noSlash s → beforeChar "/" s = s.
Proof.
  induction s as [|a s IH]; [done|].
  intros [Ha Hs]%noSlash_cons. simpl.
  destruct (Ascii.eqb_spec a "/"); [done|]. by rewrite IH.
Qed.

Lemma beforeChar_path s path :
  noSlash s → beforeChar "/" (String.append s (String "/" path)) = s.
Proof.
  induction s as [|a s IH]; [done|].
  intros [Ha Hs]%noSlash_cons. simpl.
  destruct (Ascii.eqb_spec a "/"); [done|]. by rewrite IH.
Qed.

Lemma noSlash_beforeChar s : noSlash (beforeChar "/" s).
Proof.
  induction s as [|a s IH]; simpl.
  - unfold noSlash. simpl. apply not_elem_of_nil.
  - destruct (Ascii.eqb_spec a "/").
    + unfold noSlash. simpl. apply not_elem_of_nil.
    + by apply noSlash_cons.
Qed.

Lemma stripScheme_noSlash s : noSlash s → stripScheme s = s.
Proof.
  intros Hs. unfold stripScheme.
  destruct (stripPrefix "http://" s) as [rest|] eqn:H1.
  - apply stripPrefix_Some in H1. subst s. simpl in Hs.
    repeat (apply noSlash_cons in Hs; destruct Hs as [? Hs]; try congruence).
  - destruct (stripPrefix "https://" s) as [rest|] eqn:H2; [|done].
    apply stripPrefix_Some in H2. subst s. simpl in Hs.
    repeat (apply noSlash_cons in Hs; destruct Hs as [? Hs]; try congruence).
Qed.

(** X15. The host name handed to [ping] never contains a slash; for a URL
    made of [http://] or [https://], a host without slash and possibly a
    path, it is that host; and a bare host is taken as it is. *)
Theorem hostname_of_url :
  (∀ url, noSlash (hostname url)) ∧
  (∀ host path, noSlash host →
     hostname (String.append "http://" (String.append host (String "/" path)))
     = host ∧
     hostname (String.append "https://" (String.append host (String "/" path)))
     = host ∧
     hostname (String.append "http://" host) = host ∧
     hostname (String.append "https://" host) = host ∧
     hostname host = host).
Proof.
  split; [intros; apply noSlash_beforeChar|].
  intros host path Hs. unfold hostname.
  repeat split.
  - change (stripScheme _) with (String.append host (String "/" path)).
    by apply beforeChar_path.
  - change (stripScheme _) with (String.append host (String "/" path)).
    by apply beforeChar_path.
  - change (stripScheme _) with host. by apply beforeChar_noSlash.
  - change (stripScheme _) with host. by apply beforeChar_noSlash.
  - rewrite stripScheme_noSlash by done. by apply beforeChar_noSlash.
Qed.

(** *** More about notifications *)

Lemma checkForNotifications_agrees h t r n :
  n ∈ (checkForNotifications h t r).2 → agrees (slowResponseThreshold h) n.
Proof.
  unfold checkForNotifications.
  destruct (JS.str_falsy _); [by intros ?%elem_of_nil|].
  destruct (getNotified h (id t)) as [|[]|m| |];
    destruct (isUp r) eqn:Hup; simpl;
    try destruct (Z.ltb_spec (slowResponseThreshold h) (responseTime r)); simpl;
    try destruct (m =? 0); simpl;
    intros Hn; try (by apply elem_of_nil in Hn);
    apply list_elem_of_singleton in Hn; subst n; unfold agrees; simpl; done.
Qed.

(** X21. A notification never contradicts the result it carries: [down]
    and [initial-down] carry a down result, [up], [initial-up] and [slow]
    an up result, and [slow] one whose response time is above the
    threshold. *)
Theorem notification_agrees_with_result h steps n :
  n ∈ (processAll h steps).2 → agrees (slowResponseThreshold h) n.
Proof.
  revert h. induction steps as [|[t r] steps IH]; intros h; simpl.
  - by intros ?%elem_of_nil.
  - destruct (processResult h t r) as [[h1 sent1]|e] eqn:Hproc; [|by apply IH].
    destruct (PingProps.processResult_check _ _ _ _ _ Hproc)
      as (h0 & Hcheck & _ & Hset).
    pose proof (PingProps.settings_threshold _ _ Hset) as Hthr.
    pose proof (PingProps.settings_threshold _ _
                  (PingProps.processResult_frame _ _ _ _ _ Hproc)) as Hthr1.
    pose proof (checkForNotifications_agrees h0 t r n) as Hone.
    rewrite Hcheck in Hone. simpl in Hone.
    specialize (IH h1). destruct (processAll h1 steps) as [h2 sent2].
    simpl in *. intros [Hn|Hn]%elem_of_app.
    + rewrite <- Hthr. by apply Hone.
    + rewrite <- Hthr1. by apply IH.
Qed.

Lemma notification_agrees_with_result_witness :
  let h := new (Some webhook_url) 1000 ∅ in
  let steps := [(example_target, up_result 1 50); (example_target, down_result 2)] in
  let n := {| type := down; target := example_target; result := down_result 2 |} in
  n ∈ (processAll h steps).2 ∧ agrees (slowResponseThreshold h) n.
Proof.
  assert (H : {| type := down; target := example_target; result := down_result 2 |}
              ∈ (processAll (new (Some webhook_url) 1000 ∅)
                   [(example_target, up_result 1 50);
                    (example_target, down_result 2)]).2).
  { replace (processAll _ _).2
      with [ {| type := initial_up; target := example_target;
                result := up_result 1 50 |};
             {| type := down; target := example_target;
                result := down_result 2 |} ] by (by vm_compute).
    apply list_elem_of_further, list_elem_of_here. }
  split; [exact H|]. exact (notification_agrees_with_result _ _ _ H).
Defined.

Lemma checkForNotifications_changes h t r b :
  JS.str_falsy (discordWebhookUrl h) = false →
  lastNotifiedStatus h !! id t = Some b →
  length (changes (checkForNotifications h t r).2)
  = (if Bool.eqb (isUp r) b then 0%nat else 1%nat) ∧
  lastNotifiedStatus (checkForNotifications h t r).1 !! id t = Some (isUp r).
Proof.
  intros Hw Hs. unfold checkForNotifications.
  rewrite Hw, (PingProps.getNotified_own _ _ _ Hs).
  unfold assignNotified. rewrite Hs.
  destruct b, (isUp r); simpl; try destruct (_ <? _); simpl;
    by rewrite ?lookup_insert_eq.
Qed.

(** X22. With a webhook URL configured no change of availability goes
    unannounced: for a target with a notified state (and, as every such
    target has, its array of results), the number of [up] and [down]
    notifications sent over a sequence of its results is the number of
    times the availability changes along the sequence. *)
Theorem every_change_is_notified h t b rs :
  JS.str_falsy (discordWebhookUrl h) = false →
  lastNotifiedStatus h !! id t = Some b →
  is_Some (results h !! id t) →
  length (changes (processAll h ((λ r, (t, r)) <$> rs)).2) = flips b rs.
Proof.
  intros Hw Hs Hown. revert h b Hw Hs Hown.
  induction rs as [|r rs IH]; intros h b Hw Hs Hown; [done|].
  simpl.
  destruct (PingProps.processResult_own h t r Hown)
    as (h0 & -> & Hl & Hset & Hown0).
  pose proof (PingProps.settings_webhook _ _ Hset) as Hu.
  assert (Hw0 : JS.str_falsy (discordWebhookUrl h0) = false) by congruence.
  assert (Hs0 : lastNotifiedStatus h0 !! id t = Some b) by congruence.
  destruct (checkForNotifications_changes h0 t r b Hw0 Hs0) as [Hone Hnew].
  pose proof (PingProps.checkForNotifications_frame h0 t r)
    as (Hset1 & Hres1 & _).
  pose proof (PingProps.settings_webhook _ _ Hset1) as Hw1.
  destruct (checkForNotifications h0 t r) as [h1 sent1]. simpl in *.
  specialize (IH h1 (isUp r)).
  destruct (processAll h1 _) as [h2 sent2]. simpl in *.
  unfold changes in *. rewrite filter_app, length_app.
  rewrite Hone, IH; [done|congruence|done|by rewrite Hres1].
Qed.

Lemma every_change_is_notified_witness :
  let h := initialize (new (Some webhook_url) 1000
                         {[ "google.json" := [up_result 1 50] ]})
             None ["google.json"] in
  let rs := [down_result 2; down_result 3; up_result 4 50; down_result 5] in
  (JS.str_falsy (discordWebhookUrl h) = false ∧
   lastNotifiedStatus h !! id example_target = Some true ∧
   is_Some (results h !! id example_target)) ∧
  length (changes (processAll h ((λ r, (example_target, r)) <$> rs)).2) = 3%nat.
Proof.
  set (h := initialize (new (Some webhook_url) 1000
                          {[ "google.json" := [up_result 1 50] ]})
              None ["google.json"]).
  assert (H1 : JS.str_falsy (discordWebhookUrl h) = false) by (by vm_compute).
  assert (H2 : lastNotifiedStatus h !! id example_target = Some true)
    by (by vm_compute).
  assert (H3 : is_Some (results h !! id example_target))
    by (by vm_compute; eexists).
  split; [exact (conj H1 (conj H2 H3))|].
  exact (every_change_is_notified h example_target true
           [down_result 2; down_result 3; up_result 4 50; down_result 5]
           H1 H2 H3).
Defined.

(** *** Targets side by side *)

(** [addResult] under one key leaves the arrays owned under the other
    keys alone. *)
Lemma addResult_other h tid r h' tid' :
  addResult h tid r = JS.Returns h' → tid' ≠ tid →
  results h' !! tid' = results h !! tid'.
Proof.
  intros Hadd Hne. revert Hadd. unfold addResult.
  assert (Hassign : ∀ hx arr,
            results (assignResults hx tid arr) !! tid' = results hx !! tid').
  { intros hx arr. unfold assignResults.
    destruct (results hx !! tid), (String.eqb tid "__proto__"); simpl;
      by rewrite ?lookup_insert_ne. }
  set (h1 := if JS.falsy (getResults h tid) then assignResults h tid [] else h).
  assert (H1 : results h1 !! tid' = results h !! tid')
    by (subst h1; destruct (JS.falsy _); [apply Hassign|done]).
  destruct (getResults h1 tid) as [|arr| | |]; try done.
  cbn. intros [= <-]. destruct (_ <? _); by rewrite ?Hassign.
Qed.

(** What one run of the loop body does to another target: nothing in
    memory, nothing to its notified state, and no notification; and
    nothing to its file when the id that is processed is plain. *)
Lemma processResult_other h t r h' sent tid :
  processResult h t r = JS.Returns (h', sent) → tid ≠ id t →
  results h' !! tid = results h !! tid ∧
  lastNotifiedStatus h' !! tid = lastNotifiedStatus h !! tid ∧
  sentFor tid sent = [] ∧
  (plainId (storagePath h) (id t) = true →
   storage h' !! fileOf tid = storage h !! fileOf tid).
Proof.
  intros Hproc Hne.
  destruct (PingProps.processResult_check _ _ _ _ _ Hproc)
    as (h0 & Hcheck & Hl & _).
  pose proof (PingProps.checkForNotifications_step h0 t r) as [Hother Hthis].
  pose proof (PingProps.checkForNotifications_frame h0 t r)
    as (_ & Hres & _ & Hst & _).
  rewrite Hcheck in Hother, Hthis, Hres, Hst. simpl in Hother, Hthis, Hres, Hst.
  revert Hproc. unfold processResult.
  destruct (addResult h (id t) r) as [h1|e] eqn:Hadd; [|done].
  cbn. intros [= Hcheck1].
  pose proof (PingProps.checkForNotifications_frame (saveResults h1 (id t)) t r)
    as (_ & Hres1 & _ & Hst1 & _).
  rewrite Hcheck1 in Hres1, Hst1. simpl in Hres1, Hst1.
  destruct (PingProps.saveResults_frame h1 (id t)) as (Hset2 & _ & Hres2 & _).
  destruct (PingProps.addResult_frame _ _ _ _ Hadd) as (Hset3 & _ & Hst3 & _).
  split; [|split; [|split]].
  - rewrite Hres1, Hres2. by apply (addResult_other _ _ _ _ _ Hadd).
  - by rewrite Hother, Hl.
  - destruct Hthis as [[-> _]|(ty & -> & _)]; [done|].
    unfold sentFor. by rewrite filter_cons_False by (simpl; congruence).
  - intros Hplain. rewrite Hst1, <- Hst3.
    pose proof (PingProps.settings_path _ _ Hset3) as Hpath.
    apply PingProps.plainId_spec in Hplain as (_ & Hnul & Hentry & _).
    unfold saveResults. destruct (getResults h1 (id t)); try done.
    rewrite Hnul, Hpath, Hentry. simpl.
    apply lookup_insert_ne. by intros ?%PingProps.fileOf_inj.
Qed.

(** X23. Targets do not interfere: processing results of other targets
    leaves the array a target owns, and its notified state, untouched
    and sends no notification about it; and when the ids that are
    processed are plain, its stored series is untouched too. *)
Theorem targets_are_isolated h steps tid :
  Forall (λ step, id step.1 ≠ tid) steps →
  let h' := (processAll h steps).1 in
  results h' !! tid = results h !! tid ∧
  lastNotifiedStatus h' !! tid = lastNotifiedStatus h !! tid ∧
  sentFor tid (processAll h steps).2 = [] ∧
  (Forall (λ step, plainId (storagePath h) (id step.1) = true) steps →
   storage h' !! fileOf tid = storage h !! fileOf tid).
Proof.
  intros Hsteps. revert h.
  induction Hsteps as [|[t r] steps Hne _ IH]; intros h; [done|].
  simpl in Hne. simpl.
  destruct (processResult h t r) as [[h1 sent1]|e] eqn:Hproc.
  - destruct (processResult_other _ _ _ _ _ tid Hproc) as (Hr & Hl & Hsent & Hs);
      [done|].
    pose proof (PingProps.settings_path _ _
                  (PingProps.processResult_frame _ _ _ _ _ Hproc)) as Hpath.
    specialize (IH h1). destruct (processAll h1 steps) as [h2 sent2].
    simpl in *. destruct IH as (IHr & IHl & IHsent & IHs).
    split; [congruence|]. split; [congruence|]. split.
    + unfold sentFor in *. by rewrite filter_app, Hsent, IHsent.
    + intros [Hplain Hrest]%Forall_cons. simpl in Hplain.
      rewrite IHs, Hs by (by rewrite ?Hpath). done.
  - specialize (IH h). destruct (processAll h steps) as [h2 sent2].
    simpl in *. destruct IH as (IHr & IHl & IHsent & IHs).
    repeat split; try done.
    intros [_ Hrest]%Forall_cons. by apply IHs.
Qed.

Lemma targets_are_isolated_witness :
  let api := {| id := "api"; name := "API"; url := "https://api.example";
                method := GET; timeout := None; headers := None;
                expectedStatus := None |} in
  let h := (processAll (new (Some webhook_url) 1000 ∅)
              [(api, up_result 1 50); (api, up_result 2 50)]).1 in
  let steps := [(example_target, up_result 3 50); (example_target, down_result 4)] in
  Forall (λ step, id step.1 ≠ "api") steps ∧
  results (processAll h steps).1 !! "api" = results h !! "api" ∧
  lastNotifiedStatus (processAll h steps).1 !! "api" = Some true.
Proof.
  assert (H : Forall (λ step : PingTarget * PingResult, id step.1 ≠ "api")
                [(example_target, up_result 3 50); (example_target, down_result 4)])
    by (repeat constructor; discriminate).
  split; [exact H|].
  destruct (targets_are_isolated
              (processAll (new (Some webhook_url) 1000 ∅)
                 [({| id := "api"; name := "API"; url := "https://api.example";
                      method := GET; timeout := None; headers := None;
                      expectedStatus := None |}, up_result 1 50);
                  ({| id := "api"; name := "API"; url := "https://api.example";
                      method := GET; timeout := None; headers := None;
                      expectedStatus := None |}, up_result 2 50)]).1
              _ "api" H) as (Hr & Hl & _).
  split; [exact Hr|]. cbv zeta. rewrite Hl. by vm_compute.
Defined.

(** *** Alternation *)

(** After [down] under a key other than [__proto__] the table enables
    nothing but [up]. *)
Lemma trace_down_again key tys rest sf :
  trace key (JS.Stored false) (tys ++ down :: rest) = Some sf → up ∈ tys.
Proof.
  destruct tys as [|ty tys]; simpl; [done|].
  destruct ty; try done. intros _. apply list_elem_of_here.
Qed.

(** After [up] only [slow] can precede the next [down], and nothing else
    is enabled. *)
Lemma trace_up_again key tys rest sf :
  trace key (JS.Stored true) (tys ++ up :: rest) = Some sf → down ∈ tys.
Proof.
  induction tys as [|ty tys IH]; simpl; [done|].
  destruct ty; try done.
  - intros _. apply list_elem_of_here.
  - intros H. apply list_elem_of_further, IH, H.
Qed.

(** X24. For every target whose id is not [__proto__], whatever state
    the handler is in and whatever results, of whatever targets, are
    processed in order: between two [down] notifications about the
    target there is an [up] notification about it, and between two [up]
    notifications there is a [down]. *)
Theorem notifications_alternate h steps tid pre n1 mid n2 post :
  tid ≠ "__proto__" →
  sentFor tid (processAll h steps).2 = pre ++ n1 :: mid ++ n2 :: post →
  (type n1 = down → type n2 = down → ∃ n, n ∈ mid ∧ type n = up) ∧
  (type n1 = up → type n2 = up → ∃ n, n ∈ mid ∧ type n = down).
Proof.
  intros Hne%String.eqb_neq Hsent.
  pose proof (PingProps.processAll_trace tid steps h) as Htr.
  unfold typesFor in Htr. rewrite Hsent in Htr.
  rewrite fmap_app, PingProps.trace_app in Htr.
  destruct (trace tid _ (type <$> pre)) as [s1|]; [|done].
  simpl in Htr. rewrite fmap_app in Htr.
  destruct (step tid s1 (type n1)) as [s2|] eqn:Hstep; [|done].
  split; intros H1 H2; rewrite H1 in Hstep; rewrite fmap_cons, H2 in Htr.
  - assert (s2 = JS.Stored false) as ->.
    { revert Hstep. unfold step. rewrite Hne.
      destruct s1 as [|[]|m| |]; simpl; try done;
        try destruct (m =? 0); simpl; congruence. }
    apply trace_down_again, list_elem_of_fmap in Htr as (n & ? & ?). eauto.
  - assert (s2 = JS.Stored true) as ->.
    { revert Hstep. unfold step.
      destruct s1 as [|[]|m| |]; simpl; congruence. }
    apply trace_up_again, list_elem_of_fmap in Htr as (n & ? & ?). eauto.
Qed.

(** The scenario of the specification: first check up, a failure, a slow
    recovery, a slow tick and another failure. The two [down]
    notifications have the [up] of the recovery between them. *)
Lemma notifications_alternate_witness :
  let h := new (Some webhook_url) 1000 ∅ in
  let steps := [(example_target, up_result 1 50);
                (example_target, down_result 2);
                (example_target, up_result 3 1500);
                (example_target, up_result 4 1500);
                (example_target, down_result 5)] in
  let note ty r := {| type := ty; target := example_target; result := r |} in
  let pre := [note initial_up (up_result 1 50)] in
  let n1 := note down (down_result 2) in
  let mid := [note up (up_result 3 1500); note slow (up_result 4 1500)] in
  let n2 := note down (down_result 5) in
  ("google" ≠ "__proto__" ∧
   sentFor "google" (processAll h steps).2 = pre ++ n1 :: mid ++ n2 :: []) ∧
  ((type n1 = down → type n2 = down → ∃ n, n ∈ mid ∧ type n = up) ∧
   (type n1 = up → type n2 = up → ∃ n, n ∈ mid ∧ type n = down)).
Proof.
  assert (Hne : "google" ≠ "__proto__") by discriminate.
  assert (Hsent :
    sentFor "google"
      (processAll (new (Some webhook_url) 1000 ∅)
         [(example_target, up_result 1 50);
          (example_target, down_result 2);
          (example_target, up_result 3 1500);
          (example_target, up_result 4 1500);
          (example_target, down_result 5)]).2
    = [ {| type := initial_up; target := example_target; result := up_result 1 50 |} ]
      ++ {| type := down; target := example_target; result := down_result 2 |}
      :: [ {| type := up; target := example_target; result := up_result 3 1500 |};
           {| type := slow; target := example_target; result := up_result 4 1500 |} ]
      ++ {| type := down; target := example_target; result := down_result 5 |}
      :: []) by (vm_compute; reflexivity).
  split; [exact (conj Hne Hsent)|].
  exact (notifications_alternate _ _ _ _ _ _ _ _ Hne Hsent).
Defined.

(** *** Ids that work as keys and as file names *)

Lemma simpleName_cons c s :
  simpleName (String c s) ↔
  (c ≠ "/"%char ∧ c ≠ "."%char ∧ c ≠ Ascii.zero) ∧ simpleName s.
Proof. unfold simpleName. simpl. by rewrite Forall_cons. Qed.

Lemma afterPrefix_mismatch a pattern c s :
  a ≠ c → JS.afterPrefix (String a pattern) (String c s) = None.
Proof.
  intros Hne. change (JS.afterPrefix (String a pattern) (String c s))
    with (if Ascii.eqb a c then JS.afterPrefix pattern s else None).
  by destruct (Ascii.eqb_spec a c).
Qed.

Lemma removeFirst_mismatch a pattern c s :
  a ≠ c →
  JS.removeFirst (String a pattern) (String c s)
  = String c (JS.removeFirst (String a pattern) s).
Proof.
  intros Hne.
  change (JS.removeFirst (String a pattern) (String c s))
    with (match JS.afterPrefix (String a pattern) (String c s) with
          | Some rest => rest
          | None => String c (JS.removeFirst (String a pattern) s)
          end).
  by rewrite afterPrefix_mismatch.
Qed.

Lemma removeFirst_fileOf tid :
  simpleName tid → JS.removeFirst ".json" (fileOf tid) = tid.
Proof.
  unfold fileOf. induction tid as [|c tid IH]; [done|].
  intros [(_ & Hdot & _) Hrest]%simpleName_cons.
  change (String c tid +:+ ".json") with (String c (tid +:+ ".json")).
  rewrite removeFirst_mismatch by done. f_equal. by apply IH.
Qed.

Lemma splitSlash_fileOf tid :
  simpleName tid → JS.splitSlash (fileOf tid) = [fileOf tid].
Proof.
  unfold fileOf. induction tid as [|c tid IH]; [done|].
  intros [(Hslash & _) Hrest]%simpleName_cons.
  change (JS.splitSlash (String c tid +:+ ".json"))
    with (if Ascii.eqb c "/" then EmptyString :: JS.splitSlash (tid +:+ ".json")
          else match JS.splitSlash (tid +:+ ".json") with
               | segment :: segments => String c segment :: segments
               | [] => [String c EmptyString]
               end).
  destruct (Ascii.eqb_spec c "/") as [->|_]; [done|].
  by rewrite IH.
Qed.

Lemma fileOf_not_special tid :
  simpleName tid →
  String.eqb (fileOf tid) "" || String.eqb (fileOf tid) "." = false ∧
  String.eqb (fileOf tid) ".." = false.
Proof.
  unfold fileOf. destruct tid as [|c tid]; [done|].
  intros [(_ & Hdot & _) _]%simpleName_cons.
  change (String c tid +:+ ".json") with (String c (tid +:+ ".json")).
  change (String.eqb (String c (tid +:+ ".json")) "")
    with false.
  change (String.eqb (String c (tid +:+ ".json")) ".")
    with (Ascii.eqb c "." && String.eqb (tid +:+ ".json") "").
  change (String.eqb (String c (tid +:+ ".json")) "..")
    with (Ascii.eqb c "." && String.eqb (tid +:+ ".json") ".").
  by destruct (Ascii.eqb_spec c ".").
Qed.

Lemma entryOf_child dir file : JS.entryOf dir (dir ++ [file]) = Some file.
Proof.
  unfold JS.entryOf. rewrite drop_app_length, take_app_length.
  by rewrite bool_decide_eq_true_2.
Qed.

Lemma hasNul_simpleName tid : simpleName tid → JS.hasNul tid = false.
Proof.
  intros Hs. unfold JS.hasNul. apply bool_decide_eq_false.
  intros Hin. unfold simpleName in Hs.
  eapply Forall_forall in Hs as (_ & _ & Hnul); [|exact Hin]. done.
Qed.

(** X26. A target id that is not the name of a property every object
    inherits and is made of characters other than [/], [.] and NUL is
    plain, whatever the storage directory: [saveResults] writes the
    entry [<id>.json] of the directory, and [loadStoredResults] reads
    that entry back under the same id. *)
Theorem simple_ids_are_plain dir tid :
  ordinaryKey tid = true → simpleName tid →
  plainId dir tid = true ∧ plainFile dir (fileOf tid) = true ∧
  JS.pathJoin dir (fileOf tid) = dir ++ [fileOf tid].
Proof.
  intros Hk Hs.
  assert (Hjoin : JS.pathJoin dir (fileOf tid) = dir ++ [fileOf tid]).
  { unfold JS.pathJoin. rewrite splitSlash_fileOf by done. simpl.
    destruct (fileOf_not_special tid Hs) as [-> ->]. done. }
  assert (Hplain : plainId dir tid = true).
  { unfold plainId.
    rewrite Hk, hasNul_simpleName, Hjoin, entryOf_child, PingProps.endsWith_fileOf,
      removeFirst_fileOf by done.
    rewrite bool_decide_eq_true_2 by done. simpl. by apply String.eqb_eq. }
  split; [done|]. split; [|done]. by apply PingProps.plainFile_fileOf.
Qed.

Lemma simple_ids_are_plain_witness :
  (ordinaryKey "google" = true ∧ simpleName "google") ∧
  plainId ["srv"; "voidlens"; "cache"; "ping-results"] "google" = true.
Proof.
  assert (H1 : ordinaryKey "google" = true) by reflexivity.
  assert (H2 : simpleName "google")
    by (repeat (apply simpleName_cons; split;
                [split; [|split]; discriminate|]); constructor).
  split; [exact (conj H1 H2)|].
  exact (proj1 (simple_ids_are_plain _ "google" H1 H2)).
Defined.

(** *** Notified targets have their results *)

(** A target comes to a notified state only under a key other than
    [__proto__]. *)
Lemma checkForNotifications_notified h t r tid :
  is_Some (lastNotifiedStatus (checkForNotifications h t r).1 !! tid) →
  is_Some (lastNotifiedStatus h !! tid) ∨
  (tid = id t ∧ String.eqb (id t) "__proto__" = false).
Proof.
  unfold checkForNotifications.
  destruct (JS.str_falsy _); [by left|].
  unfold getNotified, assignNotified, JS.fromObjectPrototype.
  destruct (lastNotifiedStatus h !! id t) as [[]|] eqn:Hown;
    [..|destruct (String.eqb (id t) "__proto__") eqn:Hproto;
        [|destruct (JS.objectPrototype !! id t) eqn:Htab]];
    destruct (isUp r); simpl;
    try destruct (slowResponseThreshold h <? responseTime r); simpl;
    try (by left);
    (destruct (decide (tid = id t)) as [->|Hne];
     [rewrite ?Hown; eauto
     |rewrite ?lookup_insert_ne by done; by left]).
Qed.

(** When [addResult] returns, the arrays that were owned are owned, and
    so is the array of the target unless its id is [__proto__]. *)
Lemma addResult_owned h tid r h' tid' :
  addResult h tid r = JS.Returns h' →
  is_Some (results h !! tid') ∨ (tid' = tid ∧ String.eqb tid "__proto__" = false) →
  is_Some (results h' !! tid').
Proof.
  intros Hadd Hcase.
  destruct (decide (tid' = tid)) as [->|Hne].
  - destruct (results h !! tid) as [arr|] eqn:Hown.
    + rewrite (PingProps.addResult_own _ _ _ _ Hown) in Hadd.
      injection Hadd as <-. simpl. rewrite lookup_insert_eq. eauto.
    + destruct Hcase as [[? ?]|[_ Hproto]]; [done|].
      revert Hadd. unfold addResult.
      destruct (getResults (if JS.falsy (getResults h tid)
                            then assignResults h tid [] else h) tid)
        as [|arr| | |]; try done.
      cbn. intros [= <-].
      destruct (_ <? _);
        rewrite !PingProps.assignResults_insert by (by right); simpl;
        rewrite lookup_insert_eq; eauto.
  - rewrite (addResult_other _ _ _ _ _ Hadd) by done.
    by destruct Hcase as [?|[? _]].
Qed.

(** X27. Every target with a notified state owns an array of results:
    this holds in a new handler, and [initialize], over whatever files
    and listing, and the processing of whatever results keep it; so the
    loop body never throws on a target that has a notified state. *)
Theorem notified_targets_have_results :
  (∀ cwd webhook threshold files, notifiedHaveResults (newIn cwd webhook threshold files)) ∧
  (∀ h config listing,
     notifiedHaveResults h → notifiedHaveResults (initialize h config listing)) ∧
  (∀ h steps,
     notifiedHaveResults h → notifiedHaveResults (processAll h steps).1) ∧
  (∀ h t r, notifiedHaveResults h →
     is_Some (lastNotifiedStatus h !! id t) →
     ∃ res, processResult h t r = JS.Returns res).
Proof.
  assert (Hassign : ∀ h key arr b,
            notifiedHaveResults h →
            notifiedHaveResults
              (assignNotified (assignResults h key arr) key b)).
  { intros h key arr b Hinv tid.
    unfold assignNotified, assignResults.
    destruct (results h !! key) as [old|] eqn:Hres;
      destruct (lastNotifiedStatus h !! key) as [c|] eqn:Hst; simpl;
      try (destruct (String.eqb key "__proto__") eqn:Hproto; simpl);
      rewrite ?Hst; simpl;
      try (destruct (decide (tid = key)) as [->|Hne];
           [rewrite ?lookup_insert_eq; eauto
           |rewrite ?lookup_insert_ne by done; apply Hinv]);
      try apply Hinv.
    all: try (destruct (Hinv key) as [? Hc]; [by eexists|congruence]). }
  assert (Hassign' : ∀ h key arr,
            notifiedHaveResults h → notifiedHaveResults (assignResults h key arr)).
  { intros h key arr Hinv tid. unfold assignResults.
    destruct (results h !! key) as [old|] eqn:Hres;
      try (destruct (String.eqb key "__proto__")); simpl;
      try apply Hinv;
      (destruct (decide (tid = key)) as [->|Hne];
       [rewrite ?lookup_insert_eq; eauto
       |rewrite ?lookup_insert_ne by done; apply Hinv]). }
  split; [|split; [|split]].
  - intros cwd webhook threshold files tid. simpl. rewrite lookup_empty.
    by intros [? ?].
  - intros h config listing Hinv. unfold initialize.
    assert (Hc : notifiedHaveResults (loadConfig h config)) by exact Hinv.
    revert Hc. generalize (loadConfig h config). clear h Hinv.
    induction listing as [|file listing IH]; intros h Hinv; [done|].
    cbn [loadStoredResults]. destruct (JS.endsWith file ".json"); [|by apply IH].
    destruct (storage h !! file) as [data|]; [|done].
    apply IH.
    destruct (getResults _ _) as [|arr| | |]; try by apply Hassign'.
    destruct (last arr); [by apply Hassign|by apply Hassign'].
  - intros h steps. revert h.
    induction steps as [|[t r] steps IH]; intros h Hinv; [done|].
    simpl. destruct (processResult h t r) as [[h1 sent1]|e] eqn:Hproc.
    + assert (Hinv1 : notifiedHaveResults h1); [|
        specialize (IH h1 Hinv1); by destruct (processAll h1 steps)].
      revert Hproc. unfold processResult.
      destruct (addResult h (id t) r) as [ha|e] eqn:Hadd; [|done].
      cbn. intros [= Hcheck]. intros tid Hst.
      pose proof (PingProps.checkForNotifications_frame (saveResults ha (id t)) t r)
        as (_ & Hres & _).
      pose proof (checkForNotifications_notified (saveResults ha (id t)) t r tid)
        as Hnew.
      rewrite Hcheck in Hres, Hnew. simpl in Hres, Hnew.
      destruct (PingProps.saveResults_frame ha (id t)) as (_ & Hl2 & Hres2 & _).
      destruct (PingProps.addResult_frame _ _ _ _ Hadd) as (_ & Hl3 & _).
      rewrite Hres, Hres2. apply (addResult_owned _ _ _ _ _ Hadd).
      destruct (Hnew Hst) as [Hold|Hthis]; [left|by right].
      apply Hinv. by rewrite <- Hl3, <- Hl2.
    + by apply IH.
  - intros h t r Hinv Hst. apply Hinv in Hst.
    destruct (PingProps.processResult_own h t r Hst) as (h0 & -> & _). eauto.
Qed.

(** *** Ids that do not work as keys or as file names *)

(** The results of a target whose id contains [.json] are stored in
    [<id>.json] and come back, at a restart, under another id: the
    notified state of the target is not rebuilt. *)
Lemma id_with_json_inside_example :
  let h := (processAll (newIn ["srv"] (Some webhook_url) 1000 ∅)
              [(target_named "a.json.b", down_result 1)]).1 in
  let h' := restart h None ["a.json.b.json"] in
  is_Some (storage h !! "a.json.b.json") ∧
  lastNotifiedStatus h !! "a.json.b" = Some false ∧
  lastNotifiedStatus h' !! "a.json.b" = None ∧
  lastNotifiedStatus h' !! "a.b.json" = Some false ∧
  results h' !! "a.json.b" = None.
Proof. split; [by vm_compute; eexists|by vm_compute]. Qed.

(** The results of a target whose id contains [/] are not written to an
    entry of the storage directory, while its notified state is set. *)
Lemma id_with_slash_example :
  let h := (processAll (newIn ["srv"] (Some webhook_url) 1000 ∅)
              [(target_named "a/b", down_result 1)]).1 in
  storage h = ∅ ∧ lastNotifiedStatus h !! "a/b" = Some false.
Proof. by vm_compute. Qed.

(** Two ids that [path.join] takes to the same file: the series of one
    target is overwritten by the other. *)
Lemma ids_sharing_a_file_example :
  let h := (processAll (newIn ["srv"] (Some webhook_url) 1000 ∅)
              [(target_named "a", up_result 1 50);
               (target_named "./a", down_result 2)]).1 in
  storage h !! "a.json" = Some [down_result 2] ∧
  results h !! "a" = Some [up_result 1 50] ∧
  lastNotifiedStatus h !! "a" = Some true.
Proof. by vm_compute. Qed.

(** For an id that names an inherited method the lookup gives that
    method: [addResult] throws, and so do the tick that reaches the target
    and the route of its history; the targets after it are not probed. *)
Lemma inherited_id_example :
  let h := initialize (new None 1000 ∅)
             (Some [constructor_target; example_target]) [] in
  let world := λ _ : PingTarget,
    {| httpOutcome := HttpTimeout;
       execOutcome := ExecRejects {| JS.message := "" |}; clock := 60000 |} in
  getResultsForTarget h "constructor" = JS.Builtin 1 ∧
  addResult h "constructor" (down_result 1)
  = JS.Throws (notAFunction "this.results[targetId].push") ∧
  pingAllTargets h world
  = JS.Throws (notAFunction "this.results[targetId].push") ∧
  Router.pingHistory h "constructor" None None 60000
  = JS.Throws (notAFunction "results.filter").
Proof. by vm_compute. Qed.

(** The host name of a URL with a path. *)
Lemma hostname_of_url_witness :
  noSlash "www.google.com" ∧
  hostname "https://www.google.com/search" = "www.google.com".
Proof.
  assert (H : noSlash "www.google.com")
    by (repeat (apply noSlash_cons; split; [discriminate|]);
        apply not_elem_of_nil).
  split; [exact H|].
  exact (proj1 (proj2 (proj2 hostname_of_url "www.google.com" "search" H))).
Defined.

End PingMore.

(** ** The ping endpoints *)

Module RouterProps.
Import Ping Router Spec Examples.

(** X16. For a target whose entry is an array or missing,
    [GET /ping/history/:id] answers with the newest results of the
    window, in order, as many as [i] says when it is positive; without
    parameters that is at most 50 results of the last day. *)
Theorem pingHistory_newest h tid days i now :
  hasSeries h tid = true →
  0 < default 50 i →
  let inWindow := window h tid (default 1 days) now in
  ∃ answer, pingHistory h tid days i now = JS.Returns answer ∧
    answer `suffix_of` inWindow ∧
    length answer = (Z.to_nat (default 50%Z i) `min` length inWindow)%nat ∧
    (i = None → (length answer ≤ 50)%nat).
Proof.
  intros Hs Hc inWindow.
  assert (Hget : getResultsForTarget h tid = JS.Stored (seriesOf h tid)).
  { unfold hasSeries in Hs. unfold getResultsForTarget, seriesOf.
    by destruct (getResults h tid). }
  unfold pingHistory. rewrite Hget. eexists. split; [reflexivity|].
  fold (window h tid (default 1 days) now). fold inWindow.
  destruct (SliceFacts.slice_last_spec (default 50 i) inWindow Hc) as [Hsuf Hlen].
  split; [done|]. split; [done|].
  intros ->. rewrite Hlen. simpl default. lia.
Qed.

Lemma pingHistory_newest_witness :
  let h := (processAll (new None 1000 ∅)
              (prod_map (λ _, example_target) (λ r, r)
                 <$> many_results "google" 60)).1 in
  let now := 60000 * 61 in
  (hasSeries h "google" = true ∧ 0 < default 50 (None : option Z)) ∧
  ∃ answer, pingHistory h "google" None None now = JS.Returns answer ∧
            answer `suffix_of` window h "google" 1 now ∧
            length answer = 50%nat.
Proof.
  set (h := (processAll (new None 1000 ∅)
               (prod_map (λ _, example_target) (λ r, r)
                  <$> many_results "google" 60)).1).
  assert (H1 : hasSeries h "google" = true) by (by vm_compute).
  assert (H2 : 0 < default 50 (None : option Z)) by reflexivity.
  split; [exact (conj H1 H2)|].
  destruct (pingHistory_newest h "google" None None (60000 * 61) H1 H2)
    as (answer & Hans & Hsuf & Hlen & _).
  exists answer. split; [exact Hans|]. split; [exact Hsuf|].
  rewrite Hlen. by vm_compute.
Defined.

End RouterProps.


(** ** Transfer rates *)

Module NetworkProps.
Import Network SpecMore.

Lemma max0_nonneg x : Qcanon.Qcle (Qc_of_Z 0) (max0 x).
Proof.
  unfold max0. destruct (decide (Qcanon.Qcle x (Qc_of_Z 0))) as [|Hx]; [done|].
  apply Qcanon.Qclt_le_weak. by apply Qcanon.Qcnot_le_lt.
Qed.

Lemma max0_of_nonneg x : Qcanon.Qcle (Qc_of_Z 0) x → max0 x = x.
Proof.
  intros Hx. unfold max0.
  destruct (decide (Qcanon.Qcle x (Qc_of_Z 0))) as [Hle|]; [|done].
  by apply Qcanon.Qcle_antisym.
Qed.

Lemma max0_of_nonpos x : Qcanon.Qcle x (Qc_of_Z 0) → max0 x = Qc_of_Z 0.
Proof. intros Hx. unfold max0. by destruct (decide _). Qed.

(** The interval since the last reading, in seconds, is positive exactly
    when the clock has advanced. *)
Lemma timeDiff_pos last now :
  Qcanon.Qclt (Qc_of_Z 0) (Qcanon.Qcdiv (Qc_of_Z (now - last)) (Qc_of_Z 1000))
  ↔ last < now.
Proof.
  assert (H1000 : Qcanon.Qclt (Qc_of_Z 0) (Qc_of_Z 1000))
    by (by apply (proj1 (Z2Qc_inj_lt _ _))).
  rewrite Z2Qc_inj_0 in H1000.
  assert (Hne : Qc_of_Z 1000 ≠ Qc_of_Z 0) by (intros ?%Z2Qc_inj; lia).
  rewrite (Qcmult_lt_mono_pos_r _ _ (Qc_of_Z 1000) H1000).
  rewrite (PingMore.Qc_div_mul _ _ Hne), <- Z2Qc_inj_mul.
  rewrite <- Z2Qc_inj_lt. lia.
Qed.

(** The rate over an interval, as a quotient of integers. *)
Lemma rate_quotient total prev last now :
  last < now →
  Qcanon.Qcdiv (Qcanon.Qcminus (Qc_of_Z total) (Qc_of_Z prev))
               (Qcanon.Qcdiv (Qc_of_Z (now - last)) (Qc_of_Z 1000))
  = Qcanon.Qcdiv (Qc_of_Z ((total - prev) * 1000)) (Qc_of_Z (now - last)).
Proof.
  intros Hlt.
  rewrite (Z2Qc_inj_mul (total - prev) 1000), (Z2Qc_inj_sub total prev).
  set (a := Qcanon.Qcminus (Qc_of_Z total) (Qc_of_Z prev)).
  set (d := Qc_of_Z (now - last)). set (c := Qc_of_Z 1000).
  assert (Hd : d ≠ Qc_of_Z 0) by (intros ?%Z2Qc_inj; lia).
  assert (Hc : c ≠ Qc_of_Z 0) by (intros ?%Z2Qc_inj; lia).
  assert (Hdc : Qcanon.Qcdiv d c ≠ Qc_of_Z 0).
  { intros H0. apply Hd.
    by rewrite <- (PingMore.Qc_div_mul d c Hc), H0, Z2Qc_inj_0,
               Qcanon.Qcmult_0_l. }
  assert (E : Qcanon.Qcmult (Qcanon.Qcdiv a (Qcanon.Qcdiv d c)) d
              = Qcanon.Qcmult a c).
  { transitivity (Qcanon.Qcmult (Qcanon.Qcdiv a (Qcanon.Qcdiv d c))
                                (Qcanon.Qcmult (Qcanon.Qcdiv d c) c)).
    - by rewrite (PingMore.Qc_div_mul d c Hc).
    - by rewrite Qcanon.Qcmult_assoc, (PingMore.Qc_div_mul a _ Hdc). }
  rewrite <- E. symmetry. apply Qcanon.Qcdiv_mult_l.
  by rewrite <- Z2Qc_inj_0.
Qed.

Lemma calculateNetworkRates_nonneg h totalIn totalOut now :
  ratesNonneg (networkStats h) →
  ratesNonneg (networkStats (calculateNetworkRates h totalIn totalOut now)).
Proof.
  intros Hh. unfold calculateNetworkRates. simpl.
  destruct (_ && _); [|done].
  split; apply max0_nonneg.
Qed.

(** X17. The transfer rates are never negative, whatever the byte
    counters do (they may go backwards when an interface is reset) and
    whatever the clock does, over any sequence of readings, failed ones
    included. *)
Theorem rates_never_negative readings :
  ratesNonneg (networkStats (updates new readings)).
Proof.
  assert (Hgen : ∀ h, ratesNonneg (networkStats h) →
                      ratesNonneg (networkStats (updates h readings))).
  { induction readings as [|[totals now] readings IH]; intros h Hh; [done|].
    unfold updates in *. simpl. apply IH.
    destruct totals as [[totalIn totalOut]|]; simpl; [|done].
    by apply calculateNetworkRates_nonneg. }
  apply Hgen. split; simpl; apply (proj1 (Z2Qc_inj_le _ _)); lia.
Qed.

(** X18. Between two readings with the clock advanced and counters that
    did not go backwards, the rate is the byte difference per second:
    rate times elapsed milliseconds is the byte difference times 1000.
    The reading becomes the new baseline. *)
Theorem rate_is_bytes_per_second h prevIn prevOut totalIn totalOut now :
  0 < lastNetworkCheck h < now →
  lastNetworkBytes h = {| in_ := Qc_of_Z prevIn; out := Qc_of_Z prevOut |} →
  prevIn ≤ totalIn → prevOut ≤ totalOut →
  let h' := calculateNetworkRates h totalIn totalOut now in
  Qcanon.Qcmult (in_ (networkStats h')) (Qc_of_Z (now - lastNetworkCheck h))
  = Qc_of_Z ((totalIn - prevIn) * 1000) ∧
  Qcanon.Qcmult (out (networkStats h')) (Qc_of_Z (now - lastNetworkCheck h))
  = Qc_of_Z ((totalOut - prevOut) * 1000) ∧
  lastNetworkBytes h' = {| in_ := Qc_of_Z totalIn; out := Qc_of_Z totalOut |} ∧
  lastNetworkCheck h' = now.
Proof.
  intros [Hlast Hnow] Hprev Hin Hout. unfold calculateNetworkRates. simpl.
  destruct (Z.ltb_spec 0 (lastNetworkCheck h)); [|lia]. simpl.
  rewrite bool_decide_eq_true_2 by (by apply timeDiff_pos).
  simpl. rewrite Hprev. simpl.
  rewrite !rate_quotient by done.
  assert (Hd : Qc_of_Z (now - lastNetworkCheck h) ≠ Qc_of_Z 0)
    by (intros ?%Z2Qc_inj; lia).
  destruct (PingMore.Qc_quotient_bounds 0 ((totalIn - prevIn) * 1000)
              ((totalIn - prevIn) * 1000) (now - lastNetworkCheck h))
    as [Hi _]; [lia|nia|].
  destruct (PingMore.Qc_quotient_bounds 0 ((totalOut - prevOut) * 1000)
              ((totalOut - prevOut) * 1000) (now - lastNetworkCheck h))
    as [Ho _]; [lia|nia|].
  rewrite !max0_of_nonneg by done.
  by rewrite !PingMore.Qc_div_mul.
Qed.

Lemma rate_is_bytes_per_second_witness :
  let h := calculateNetworkRates new 1000 500 1700000000000 in
  let h' := calculateNetworkRates h 4000 500 1700000002000 in
  (0 < lastNetworkCheck h < 1700000002000 ∧
   lastNetworkBytes h = {| in_ := Qc_of_Z 1000; out := Qc_of_Z 500 |} ∧
   1000 ≤ 4000 ∧ 500 ≤ 500) ∧
  Qcanon.Qcmult (in_ (networkStats h'))
                (Qc_of_Z (1700000002000 - lastNetworkCheck h))
  = Qc_of_Z ((4000 - 1000) * 1000).
Proof.
  assert (H1 : 0 < lastNetworkCheck (calculateNetworkRates new 1000 500 1700000000000)
               < 1700000002000) by (simpl; lia).
  assert (H2 : lastNetworkBytes (calculateNetworkRates new 1000 500 1700000000000)
               = {| in_ := Qc_of_Z 1000; out := Qc_of_Z 500 |}) by reflexivity.
  assert (H3 : 1000 ≤ 4000) by lia.
  assert (H4 : 500 ≤ 500) by lia.
  split; [exact (conj H1 (conj H2 (conj H3 H4)))|].
  exact (proj1 (rate_is_bytes_per_second _ 1000 500 4000 500 1700000002000
                  H1 H2 H3 H4)).
Defined.

(** X19. Without a usable interval the rates are left as they were: at
    the first reading (which only sets the baseline, so the first rates
    reported are 0), when the clock has not advanced since the last
    reading, and when the reading failed, in which case nothing at all
    changes. *)
Theorem rates_kept_without_interval h totalIn totalOut now :
  (lastNetworkCheck h ≤ 0 ∨ now ≤ lastNetworkCheck h →
   networkStats (calculateNetworkRates h totalIn totalOut now) = networkStats h) ∧
  (updateNetworkStats new (Some (totalIn, totalOut)) now).2
  = {| in_ := Qc_of_Z 0; out := Qc_of_Z 0 |} ∧
  (updateNetworkStats h None now).1 = h.
Proof.
  split; [|done].
  intros Hcase. unfold calculateNetworkRates. simpl.
  destruct (Z.ltb_spec 0 (lastNetworkCheck h)); [|done]. simpl.
  destruct Hcase as [|Hnow]; [lia|].
  rewrite bool_decide_eq_false_2; [done|].
  rewrite timeDiff_pos. lia.
Qed.

(** X20. A byte counter that went backwards between two readings with
    the clock advanced gives the rate 0, not a negative rate. *)
Theorem counter_reset_gives_zero h prevIn prevOut totalIn totalOut now :
  0 < lastNetworkCheck h < now →
  lastNetworkBytes h = {| in_ := Qc_of_Z prevIn; out := Qc_of_Z prevOut |} →
  totalIn ≤ prevIn →
  in_ (networkStats (calculateNetworkRates h totalIn totalOut now)) = Qc_of_Z 0.
Proof.
  intros [Hlast Hnow] Hprev Hin. unfold calculateNetworkRates. simpl.
  destruct (Z.ltb_spec 0 (lastNetworkCheck h)); [|lia]. simpl.
  rewrite bool_decide_eq_true_2 by (by apply timeDiff_pos).
  simpl. rewrite Hprev. simpl.
  rewrite rate_quotient by done.
  apply max0_of_nonpos.
  destruct (PingMore.Qc_quotient_bounds ((totalIn - prevIn) * 1000) 0
              ((totalIn - prevIn) * 1000) (now - lastNetworkCheck h))
    as [_ Hi]; [lia|nia|done].
Qed.

Lemma counter_reset_gives_zero_witness :
  let h := calculateNetworkRates new 9000 500 1700000000000 in
  (0 < lastNetworkCheck h < 1700000002000 ∧
   lastNetworkBytes h = {| in_ := Qc_of_Z 9000; out := Qc_of_Z 500 |} ∧
   100 ≤ 9000) ∧
  in_ (networkStats (calculateNetworkRates h 100 600 1700000002000)) = Qc_of_Z 0.
Proof.
  assert (H1 : 0 < lastNetworkCheck (calculateNetworkRates new 9000 500 1700000000000)
               < 1700000002000) by (simpl; lia).
  assert (H2 : lastNetworkBytes (calculateNetworkRates new 9000 500 1700000000000)
               = {| in_ := Qc_of_Z 9000; out := Qc_of_Z 500 |}) by reflexivity.
  assert (H3 : 100 ≤ 9000) by lia.
  split; [exact (conj H1 (conj H2 H3))|].
  exact (counter_reset_gives_zero _ 9000 500 100 600 1700000002000 H1 H2 H3).
Defined.

End NetworkProps.
